(** * PixelManager: batching, dynamic sizing and picking

    A shallow embedding of [src/three/pixel-manager.js].

    Conventions of the model.
    - A JavaScript number that is known to be finite is a rational [Q];
      arithmetic is exact (no rounding to binary64, and no rounding to
      binary32 when a value is stored in a [Float32Array]).  Every value the
      coordinate mapping and the builder produce is an integer or a
      half-integer far below 2^53, so they are exact in the source as well.
      The geometry commit is modelled a second time with every rounding
      written out ([getSize_fl], [updateBufferGeometry_fl]).
    - Integers that index arrays or enter the bitwise hash are [Z].
    - [parseInt] may answer [NaN]: a colour index is an [option Z], [None]
      standing for [NaN].
    - An element of a typed array may be [NaN]: type [number].
    - A call that may raise [TypeError] returns an [outcome].
    - [Math.tan], [Math.PI], the camera, [window.innerHeight] and the image
      [data] are inputs of the model. *)

From Stdlib Require Import ZArith QArith Qround Qminmax Qabs Qpower Lia Lqa Ascii String.
From stdpp Require Import base list.

Local Open Scope Z_scope.

(** ** Outcomes of a call *)

Inductive js_error : Type := TypeError.

Inductive outcome (A : Type) : Type :=
| Returned (a : A)
| Thrown (e : js_error).
Arguments Returned {A} a.
Arguments Thrown {A} e.

#[global] Instance outcome_ret : MRet outcome := fun _ a => Returned a.
#[global] Instance outcome_bind : MBind outcome := fun _ _ f m =>
  match m with
  | Returned a => f a
  | Thrown e => Thrown e
  end.

(** Reading a property of [undefined] raises [TypeError]. *)
Definition defined {A : Type} (o : option A) : outcome A :=
  match o with
  | Some a => Returned a
  | None => Thrown TypeError
  end.

(** ** Module constants (lines 11-17) *)

Definition PIXEL_SIZE : Q := 10.
Definition MAX_PIXEL_SIZE_PX : Q := 128.
Definition N_GROUPS : Z := 3.
Definition MAGIC_NUMBER : Z := 551.

Definition centerRow : Z := 132.
Definition centerCol : Z := 76.

(** [this.pixelSize] is assigned once, in the constructor, to [PIXEL_SIZE]. *)
Definition pixelSize : Q := PIXEL_SIZE.

(** [getNGroups]: [colorIndex * 1 === 0 ? N_GROUPS * 3 : N_GROUPS].
    [NaN * 1 === 0] is false. *)
Definition getNGroups (colorIndex : option Z) : Z :=
  match colorIndex with
  | Some 0 => N_GROUPS * 3
  | _ => N_GROUPS
  end.

(** ** Bitwise and remainder operators of JavaScript *)

(** [ToInt32]: reduction modulo 2^32 into [-2^31, 2^31). *)
Definition ToInt32 (z : Z) : Z :=
  let m := z mod 2 ^ 32 in
  if 2 ^ 31 <=? m then m - 2 ^ 32 else m.

(** [a >> count]: the left operand goes through [ToInt32], the shift count is
    taken modulo 32, the shift is sign-propagating. *)
Definition js_sar (a count : Z) : Z :=
  Z.shiftr (ToInt32 a) (Z.land count 31).

(** [a % b] on integers: the remainder has the sign of the dividend. *)
Definition js_rem (a b : Z) : Z := Z.rem a b.

(** ** Group assignment (lines 59-61 of [addColorVertex]) *)

(** The hash, as an exact integer.  The source computes it in binary64,
    where it is exact as long as it stays below 2^53; the statements about
    the hash keep it below 2^31. *)
Definition calc (rowIndex colIndex : Z) : Z :=
  rowIndex + colIndex + rowIndex * rowIndex * colIndex.

Definition groupNumber (colorIndex : option Z) (rowIndex colIndex : Z) : Z :=
  js_rem (js_sar (calc rowIndex colIndex) MAGIC_NUMBER)
         (getNGroups colorIndex - 1).

(** ** Coordinate mapping (lines 231-246) *)

(** [parseInt(ch, 16)] for a one-character string. *)
Definition hexDigit (ch : ascii) : option Z :=
  let n := Z.of_nat (nat_of_ascii ch) in
  if (48 <=? n) && (n <=? 57) then Some (n - 48)
  else if (97 <=? n) && (n <=? 102) then Some (n - 87)
  else if (65 <=? n) && (n <=? 70) then Some (n - 55)
  else None.

(** [parseInt(v, 16)] where [v] is a cell of the grid or [undefined]:
    [undefined] is first turned into the string "undefined", which starts
    with no hexadecimal digit. *)
Definition parseInt16 (v : option ascii) : option Z :=
  match v with
  | Some ch => hexDigit ch
  | None => None
  end.

(** Indexing a JavaScript array or string by a number that holds an
    integer: [undefined] outside [0, length). *)
Definition js_index {A : Type} (l : list A) (i : Z) : option A :=
  if i <? 0 then None else l !! Z.to_nat i.

Record Pixel : Type := mkPixel {
  row : Z;
  col : Z;
  colorIndex : option Z
}.

Record Point : Type := mkPoint { px : Q; py : Q }.

Section Grid.

(** The image, [data/data.json]: one entry per row, one character per cell. *)
Variable data : list (list ascii).

Definition nRows : Z := Z.of_nat (length data).

(** [data[0].length]: raises on an empty image. *)
Definition nCols : outcome Z :=
  row0 ← defined (js_index data 0);
  mret (Z.of_nat (length row0)).

Definition getPixelFromCoordinates (x y : Q) : outcome Pixel :=
  let row := centerRow + Qfloor (x / pixelSize + 0.5) in
  let col := centerCol + Qfloor (y / pixelSize + 0.5) in
  r ← defined (js_index data row);
  let colorIndex := parseInt16 (js_index r col) in
  mret (mkPixel row col colorIndex).

Definition getCoordinatesFromPixel (row col : Z) : Point :=
  let x := (inject_Z (row - centerRow) * pixelSize)%Q in
  let y := (inject_Z (col - centerCol) * pixelSize)%Q in
  mkPoint x y.


(** ** Batch buffers (lines 36-43) *)

Record BufferGeometry : Type := mkBufferGeometry {
  positions : list Q;
  centers : list Q;
  indices : list Z
}.

Definition emptyBufferGeometry : BufferGeometry := mkBufferGeometry [] [] [].

(** A reference to one of the batch objects held in [this.bufferGeometries]:
    its place in the outer and in the inner array. *)
Definition BufferRef : Type := (nat * nat)%type.

Definition js_index_num {A : Type} (l : list A) (i : option Z) : option A :=
  match i with
  | Some z => js_index l z
  | None => None
  end.

(** [getBufferGeometry] (lines 54-56): reading [groupIndex] of an absent
    bucket raises; an absent group is [undefined]. *)
Definition getBufferGeometry (bufferGeometries : list (list BufferGeometry))
    (colorIndex : option Z) (groupIndex : Z) : outcome (option BufferRef) :=
  bucket ← defined (js_index_num bufferGeometries colorIndex);
  match colorIndex, js_index bucket groupIndex with
  | Some c, Some _ => mret (Some (Z.to_nat c, Z.to_nat groupIndex))
  | _, _ => mret None
  end.

(** ** The quad of a pixel: [THREE.PlaneGeometry] (external library)

    [new THREE.PlaneGeometry(w, h)] has one segment per axis: four vertices,
    numbered row by row from the top left, and two faces. *)

Record Vertex : Type := mkVertex { vx : Q; vy : Q; vz : Q }.
Record Face3 : Type := mkFace3 { fa : Z; fb : Z; fc : Z }.
Record Geometry : Type := mkGeometry {
  vertices : list Vertex;
  faces : list Face3
}.

Definition PlaneGeometry (width height : Q) : Geometry :=
  let w2 := (width / 2)%Q in
  let h2 := (height / 2)%Q in
  mkGeometry
    [ mkVertex (- w2) h2 0; mkVertex w2 h2 0;
      mkVertex (- w2) (- h2) 0; mkVertex w2 (- h2) 0 ]
    [ mkFace3 0 2 1; mkFace3 2 3 1 ].

Definition translate (g : Geometry) (x y z : Q) : Geometry :=
  mkGeometry
    (map (fun v => mkVertex (vx v + x) (vy v + y) (vz v + z)) (vertices g))
    (faces g).

(** [forEach] with a body that may raise: the state is threaded through. *)
Fixpoint forEach {S A : Type} (body : S -> A -> outcome S) (l : list A) (s : S)
    : outcome S :=
  match l with
  | [] => mret s
  | a :: l' => s' ← body s a; forEach body l' s'
  end.

(** The mutation of one batch object in place. *)
Definition modifyBuffer (r : BufferRef) (f : BufferGeometry -> BufferGeometry)
    (bufferGeometries : list (list BufferGeometry)) : list (list BufferGeometry) :=
  alter (alter f (snd r)) (fst r) bufferGeometries.

(** What one face appends to its batch (lines 77-89). *)
Definition appendFace (vertexA vertexB vertexC vertex : Vertex) (face : Face3)
    (b : BufferGeometry) : BufferGeometry :=
  mkBufferGeometry
    (positions b ++ [vx vertexA; vy vertexA; vz vertexA]
                 ++ [vx vertexB; vy vertexB; vz vertexB]
                 ++ [vx vertexC; vy vertexC; vz vertexC])
    (centers b ++ [vx vertex; vy vertex; vz vertex]
               ++ [vx vertex; vy vertex; vz vertex]
               ++ [vx vertex; vy vertex; vz vertex])
    (indices b ++ [fa face; fb face; fc face]).

(** Body of [geometry.faces.forEach] (lines 73-90); [bufferGeometry] is the
    captured variable, possibly [undefined]. *)
Definition pushFace (geometry : Geometry) (vertex : Vertex)
    (bufferGeometry : option BufferRef)
    (bufferGeometries : list (list BufferGeometry)) (face : Face3)
    : outcome (list (list BufferGeometry)) :=
  vertexA ← defined (js_index (vertices geometry) (fa face));
  vertexB ← defined (js_index (vertices geometry) (fb face));
  vertexC ← defined (js_index (vertices geometry) (fc face));
  r ← defined bufferGeometry;
  mret (modifyBuffer r (appendFace vertexA vertexB vertexC vertex face)
          bufferGeometries).

Definition isCenter (rowIndex colIndex : Z) : bool :=
  (rowIndex =? centerRow) && (colIndex =? centerCol).

(** The batch a cell is routed to (lines 59-68). *)
Definition targetBuffer (bufferGeometries : list (list BufferGeometry))
    (colorIndex : option Z) (rowIndex colIndex : Z) : outcome (option BufferRef) :=
  bufferGeometry ← getBufferGeometry bufferGeometries colorIndex
                     (groupNumber colorIndex rowIndex colIndex);
  if isCenter rowIndex colIndex
  then getBufferGeometry bufferGeometries (Some 0) 0
  else mret bufferGeometry.

(** [addColorVertex] (lines 58-91).  Pushing onto [undefined] raises. *)
Definition addColorVertex (bufferGeometries : list (list BufferGeometry))
    (colorIndex : option Z) (rowIndex colIndex : Z) (vertex : Vertex)
    : outcome (list (list BufferGeometry)) :=
  bufferGeometry ← targetBuffer bufferGeometries colorIndex rowIndex colIndex;
  let geometry :=
    translate (PlaneGeometry pixelSize pixelSize) (vx vertex) (vy vertex) (vz vertex) in
  forEach (pushFace geometry vertex bufferGeometry) (faces geometry) bufferGeometries.

(** ** The build pass (lines 93-115) *)

Definition offsetRow (nRows : Z) : Q :=
  inject_Z nRows * pixelSize / 2 - 0.5 * pixelSize.
Definition offSetCol (nCols : Z) : Q :=
  inject_Z nCols * pixelSize / 2 + 7 * pixelSize.

(** The anchor of a cell (lines 106-110). *)
Definition cellVertex (nRows nCols rowIndex colIndex : Z) : Vertex :=
  mkVertex (inject_Z rowIndex * pixelSize - offsetRow nRows)
           (inject_Z colIndex * pixelSize - offSetCol nCols)
           0.

Definition upto (n : Z) : list Z := map Z.of_nat (seq 0 (Z.to_nat n)).

Definition addColorVertices (nCols : Z)
    (bufferGeometries : list (list BufferGeometry))
    : outcome (list (list BufferGeometry)) :=
  forEach (fun bgs rowIndex =>
    let row := js_index data rowIndex in
    forEach (fun bgs colIndex =>
      row ← defined row;
      let digit := js_index row colIndex in
      let colorIndex := parseInt16 digit in
      let vertex := cellVertex nRows nCols rowIndex colIndex in
      addColorVertex bgs colorIndex rowIndex colIndex vertex)
      (upto nCols) bgs)
    (upto nRows) bufferGeometries.

(** ** The constructor (lines 23-52) *)

(** [countsByColor] is a plain object keyed by colour index.  Its own keys
    are enumerated integer keys first, in ascending order, then the key
    [NaN]; the association list is kept in that order. *)
Definition keyBefore (k k' : option Z) : bool :=
  match k, k' with
  | Some a, Some b => a <? b
  | Some _, None => true
  | None, _ => false
  end.

Definition keyEq (k k' : option Z) : bool :=
  match k, k' with
  | Some a, Some b => a =? b
  | None, None => true
  | _, _ => false
  end.

Fixpoint countColor (k : option Z) (counts : list (option Z * nat))
    : list (option Z * nat) :=
  match counts with
  | [] => [(k, 1%nat)]
  | (k', n) :: rest =>
      if keyEq k k' then (k', S n) :: rest
      else if keyBefore k k' then (k, 1%nat) :: counts
      else (k', n) :: countColor k rest
  end.

Definition countsByColor : list (option Z * nat) :=
  foldl (fun counts row =>
           foldl (fun counts color => countColor (parseInt16 (Some color)) counts) counts row)
        [] data.

(** One array of empty batches per key of [countsByColor] (lines 36-43). *)
Definition initialBufferGeometries : list (list BufferGeometry) :=
  map (fun kc => replicate (Z.to_nat (getNGroups (fst kc))) emptyBufferGeometry)
      countsByColor.

(** ** Drawable batches (lines 117-147) *)

(** An element of a [Float32Array]. *)
Inductive number : Type := Num (q : Q) | NaN.

(** A uniform of the shader material: [{ value, type }], and [needsUpdate]
    once it has been assigned. *)
Record Uniform : Type := mkUniform {
  value : Q;
  needsUpdate : option bool
}.

Context {Color : Type}.
(** [threeColorsByIndex] (lines 7-9), parsed from [constants/colors]. *)
Variable threeColorsByIndex : list Color.

Record Mesh : Type := mkMesh {
  position_z : Q;                       (* pixelGroup.position.z *)
  positionArray : list number;          (* geometry.attributes.position.array *)
  positionNeedsUpdate : bool;           (* geometry.attributes.position.needsUpdate *)
  centerArray : list number;            (* geometry.attributes.center.array *)
  vertexIndexArray : list Z;            (* geometry.attributes.vertexIndex.array *)
  uniformColor : option Color;          (* material.uniforms.color.value *)
  uniformSize : Uniform;                (* material.uniforms.size *)
  uniformDepthCompensation : Q          (* material.uniforms.depthCompensation.value *)
}.

(** Conversion of an element stored in a [Uint16Array]. *)
Definition ToUint16 (z : Z) : Z := z mod 2 ^ 16.

Definition newMesh (colorIndex : nat) (b : BufferGeometry) : Mesh :=
  mkMesh 0
         (map Num (positions b)) false
         (map Num (centers b))
         (map ToUint16 (indices b))
         (threeColorsByIndex !! colorIndex)
         (mkUniform pixelSize None)
         1.

(** The meshes are pushed bucket by bucket, group by group. *)
Definition createBufferGeometries (bufferGeometries : list (list BufferGeometry))
    : list Mesh :=
  concat (imap (fun colorIndex group => map (newMesh colorIndex) group)
               bufferGeometries).

Record Camera : Type := mkCamera {
  fov : Q;          (* camera.fov, in degrees *)
  camera_z : Q      (* camera.position.z *)
}.

Record PixelManager : Type := mkPixelManager {
  this_nRows : Z;
  this_nCols : Z;
  bufferGeometries : list (list BufferGeometry);
  pixelGroups : list Mesh;
  camera : Camera
}.

Definition constructor (camera : Camera) : outcome PixelManager :=
  nCols ← nCols;
  bgs ← addColorVertices nCols initialBufferGeometries;
  mret (mkPixelManager nRows nCols bgs (createBufferGeometries bgs) camera).

Definition setPixelGroups (this : PixelManager) (groups : list Mesh) : PixelManager :=
  mkPixelManager (this_nRows this) (this_nCols this) (bufferGeometries this)
                 groups (camera this).

(** ** Dynamic sizing (lines 149-223) *)

Variable tan : Q -> Q.          (* Math.tan *)
Variable PI : Q.                (* Math.PI *)
Variable innerHeight : positive. (* window.innerHeight, device pixels *)

Definition distanceOffset : Q := 16.

(** Visible world height at the depth of a batch (line 161). *)
Definition worldHeight (cam : Camera) (pixelGroup : Mesh) : Q :=
  let vFOV := (fov cam * PI / 180)%Q in
  (2 * tan (vFOV / 2) * (camera_z cam - position_z pixelGroup / distanceOffset))%Q.

Definition getSize (this : PixelManager) (pixelGroupIndex : nat) : outcome Q :=
  let maxPixelFraction := (MAX_PIXEL_SIZE_PX / inject_Z (Zpos innerHeight))%Q in
  pixelGroup ← defined (pixelGroups this !! pixelGroupIndex);
  let height := worldHeight (camera this) pixelGroup in
  let maxSize := (maxPixelFraction * height)%Q in
  let size := Qmin pixelSize maxSize in
  mret size.

(** The right operand of the test on line 177 is the uniform object itself,
    not its [value]. *)
Inductive jsval : Type :=
| JNumber (q : Q)
| JUniform (u : Uniform).

(** [size !== v] for a number [size]: operands of different types are never
    strictly equal. *)
Definition strictNotEqual (size : Q) (v : jsval) : bool :=
  match v with
  | JNumber q => negb (Qeq_bool size q)
  | JUniform _ => true
  end.

Definition setSizeUniform (pixelGroup : Mesh) (u : Uniform) : Mesh :=
  mkMesh (position_z pixelGroup) (positionArray pixelGroup)
         (positionNeedsUpdate pixelGroup) (centerArray pixelGroup)
         (vertexIndexArray pixelGroup) (uniformColor pixelGroup)
         u (uniformDepthCompensation pixelGroup).

(** [updatePixelSize] (lines 172-182). *)
Definition updatePixelSize (this : PixelManager) : outcome PixelManager :=
  forEach (fun this i =>
    pixelGroup ← defined (pixelGroups this !! i);
    size ← getSize this i;
    if strictNotEqual size (JUniform (uniformSize pixelGroup))
    then
      let u := mkUniform size (needsUpdate (uniformSize pixelGroup)) in
      let u := mkUniform (value u) (Some true) in
      mret (setPixelGroups this (<[i := setSizeUniform pixelGroup u]> (pixelGroups this)))
    else mret this)
    (seq 0 (length (pixelGroups this))) this.

(** Arithmetic on an operand read from a typed array: [undefined] is turned
    into [NaN], and [NaN] propagates. *)
Definition ToNumber (v : option number) : number :=
  match v with
  | Some n => n
  | None => NaN
  end.

Definition numPlus (a : number) (b : Q) : number :=
  match a with
  | Num q => Num (q + b)
  | NaN => NaN
  end.

Definition numMinus (a : number) (b : Q) : number :=
  match a with
  | Num q => Num (q - b)
  | NaN => NaN
  end.

(** Lines 203-216: [x] and [y] stay [undefined] when no branch is taken. *)
Definition cornerPosition (size : Q) (vertexIndex : option Z)
    (centerX centerY : option number) : option number * option number :=
  match vertexIndex with
  | Some 0 => (Some (numMinus (ToNumber centerX) (0.5 * size)),
               Some (numPlus (ToNumber centerY) (0.5 * size)))
  | Some 1 => (Some (numPlus (ToNumber centerX) (0.5 * size)),
               Some (numPlus (ToNumber centerY) (0.5 * size)))
  | Some 2 => (Some (numMinus (ToNumber centerX) (0.5 * size)),
               Some (numMinus (ToNumber centerY) (0.5 * size)))
  | Some 3 => (Some (numPlus (ToNumber centerX) (0.5 * size)),
               Some (numMinus (ToNumber centerY) (0.5 * size)))
  | _ => (None, None)
  end.

(** Body of the inner loop (lines 199-219), over the reals: the value
    stored is the exact one ([rewriteVertex_fl] below rounds it as the
    [Float32Array] does).  A store past the end of a typed
    array is ignored, as is stdpp's insertion. *)
Definition rewriteVertex (size : Q) (centerBufferArray : list number)
    (vertexIndexBufferArray : list Z) (positionBufferArray : list number)
    (j : nat) : list number :=
  let vertexIndex := vertexIndexBufferArray !! j in
  let centerX := centerBufferArray !! (j * 3 + 0)%nat in
  let centerY := centerBufferArray !! (j * 3 + 1)%nat in
  let xy := cornerPosition size vertexIndex centerX centerY in
  <[(j * 3 + 1)%nat := ToNumber (snd xy)]>
    (<[(j * 3 + 0)%nat := ToNumber (fst xy)]> positionBufferArray).

(** The values of [j] with [j < length / 3], the division being exact. *)
Definition vertexCount (len : nat) : nat := ((len + 2) / 3)%nat.

Definition rewritePositions (size : Q) (pixelGroup : Mesh) : list number :=
  foldl (rewriteVertex size (centerArray pixelGroup) (vertexIndexArray pixelGroup))
        (positionArray pixelGroup)
        (seq 0 (vertexCount (length (positionArray pixelGroup)))).

Definition setPosition (pixelGroup : Mesh) (arr : list number) (dirty : bool) : Mesh :=
  mkMesh (position_z pixelGroup) arr dirty (centerArray pixelGroup)
         (vertexIndexArray pixelGroup) (uniformColor pixelGroup)
         (uniformSize pixelGroup) (uniformDepthCompensation pixelGroup).

(** [updateBufferGeometry] (lines 189-223). *)
Definition updateBufferGeometry (this : PixelManager) : outcome PixelManager :=
  forEach (fun this i =>
    pixelGroup ← defined (pixelGroups this !! i);
    size ← getSize this i;
    let pixelGroup' := setPosition pixelGroup (rewritePositions size pixelGroup) true in
    mret (setPixelGroups this (<[i := pixelGroup']> (pixelGroups this))))
    (seq 0 (length (pixelGroups this))) this.

End Grid.

(** ** Binary floating point

    The value a finite real is rounded to in a binary format of precision
    [prec] whose smallest positive number is [2 ^ emin]: to nearest, ties to
    even.  An overflow to [Infinity] is outside the model. *)

Definition roundHalfEven (q : Q) : Z :=
  let f := Qfloor q in
  match (q - inject_Z f ?= 1 # 2)%Q with
  | Lt => f
  | Gt => f + 1
  | Eq => if Z.even f then f else f + 1
  end.

(** The integer part of the binary logarithm of a positive rational. *)
Definition Qlog2 (q : Q) : Z :=
  let k := Z.log2 (Qnum q) - Z.log2 (Zpos (Qden q)) in
  if Qle_bool (2 ^ k) q then k else k - 1.

Definition roundBinary (prec emin : Z) (q : Q) : Q :=
  if Qeq_bool q 0 then 0%Q
  else
    let e := Z.max emin (Qlog2 (Qabs q) - (prec - 1)) in
    Qred (inject_Z (roundHalfEven (q / 2 ^ e)) * 2 ^ e).

(** The result of an arithmetic operation on numbers. *)
Definition binary64 (q : Q) : Q := roundBinary 53 (-1074) q.

(** The conversion of a number stored in a [Float32Array]. *)
Definition fround (q : Q) : Q := roundBinary 24 (-149) q.

(** ** The geometry commit in floating point (lines 149-166, 189-223)

    [getSize] and [updateBufferGeometry] once more, every operation rounded
    to binary64 and every store into the position buffer rounded to
    binary32.  [Math.tan] and [Math.PI] answer binary64 numbers. *)

Section Rounded.

Context {Color : Type}.
Variable tan : Q -> Q.
Variable PI : Q.
Variable innerHeight : positive.

Definition getSize_fl (this : @PixelManager Color) (pixelGroupIndex : nat)
    : outcome Q :=
  let fov := fov (camera this) in
  let zoom := camera_z (camera this) in
  let vFOV := binary64 (binary64 (fov * binary64 PI) / 180) in
  let maxPixelFraction :=
    binary64 (MAX_PIXEL_SIZE_PX / inject_Z (Zpos innerHeight)) in
  pixelGroup ← defined (pixelGroups this !! pixelGroupIndex);
  let height :=
    binary64 (binary64 (2 * binary64 (tan (binary64 (vFOV / 2))))
              * binary64 (zoom - binary64 (position_z pixelGroup / distanceOffset))) in
  let maxSize := binary64 (maxPixelFraction * height) in
  let size := Qmin pixelSize maxSize in
  mret size.

Definition numPlus_fl (a : number) (b : Q) : number :=
  match a with
  | Num q => Num (binary64 (q + b))
  | NaN => NaN
  end.

Definition numMinus_fl (a : number) (b : Q) : number :=
  match a with
  | Num q => Num (binary64 (q - b))
  | NaN => NaN
  end.

(** Lines 203-216. *)
Definition cornerPosition_fl (size : Q) (vertexIndex : option Z)
    (centerX centerY : option number) : option number * option number :=
  let half := binary64 (0.5 * size) in
  match vertexIndex with
  | Some 0 => (Some (numMinus_fl (ToNumber centerX) half),
               Some (numPlus_fl (ToNumber centerY) half))
  | Some 1 => (Some (numPlus_fl (ToNumber centerX) half),
               Some (numPlus_fl (ToNumber centerY) half))
  | Some 2 => (Some (numMinus_fl (ToNumber centerX) half),
               Some (numMinus_fl (ToNumber centerY) half))
  | Some 3 => (Some (numPlus_fl (ToNumber centerX) half),
               Some (numMinus_fl (ToNumber centerY) half))
  | _ => (None, None)
  end.

(** The element a [Float32Array] holds after [array[k] = v]. *)
Definition toFloat32 (v : option number) : number :=
  match v with
  | Some (Num q) => Num (fround q)
  | _ => NaN
  end.

(** Body of the inner loop (lines 199-219). *)
Definition rewriteVertex_fl (size : Q) (centerBufferArray : list number)
    (vertexIndexBufferArray : list Z) (positionBufferArray : list number)
    (j : nat) : list number :=
  let vertexIndex := vertexIndexBufferArray !! j in
  let centerX := centerBufferArray !! (j * 3 + 0)%nat in
  let centerY := centerBufferArray !! (j * 3 + 1)%nat in
  let xy := cornerPosition_fl size vertexIndex centerX centerY in
  <[(j * 3 + 1)%nat := toFloat32 (snd xy)]>
    (<[(j * 3 + 0)%nat := toFloat32 (fst xy)]> positionBufferArray).

Definition rewritePositions_fl (size : Q) (pixelGroup : @Mesh Color) : list number :=
  foldl (rewriteVertex_fl size (centerArray pixelGroup) (vertexIndexArray pixelGroup))
        (positionArray pixelGroup)
        (seq 0 (vertexCount (length (positionArray pixelGroup)))).

Definition updateBufferGeometry_fl (this : @PixelManager Color)
    : outcome (@PixelManager Color) :=
  forEach (fun this i =>
    pixelGroup ← defined (pixelGroups this !! i);
    size ← getSize_fl this i;
    let pixelGroup' :=
      setPosition pixelGroup (rewritePositions_fl size pixelGroup) true in
    mret (setPixelGroups this (<[i := pixelGroup']> (pixelGroups this))))
    (seq 0 (length (pixelGroups this))) this.

End Rounded.

(** ** The palette (lines 249-257) *)

(** [parseInt(s, 16)] on a string: leading white space is skipped (the ASCII
    white space and line terminators), then a sign, then [0x] or [0X]; the
    longest run of hexadecimal digits that follows is the value, [NaN] when
    it is empty.  The value is the exact integer: it is the number the
    source returns as long as it is below 2^53 (at most 13 digits); above,
    the source rounds it to binary64. *)
Definition isWhiteSpace (ch : ascii) : bool :=
  let n := Z.of_nat (nat_of_ascii ch) in
  ((9 <=? n) && (n <=? 13)) || (n =? 32).

Fixpoint trimStart (s : string) : string :=
  match s with
  | String ch rest => if isWhiteSpace ch then trimStart rest else s
  | EmptyString => s
  end.

Fixpoint hexPrefix (s : string) : list Z :=
  match s with
  | String ch rest =>
      match hexDigit ch with
      | Some d => d :: hexPrefix rest
      | None => []
      end
  | EmptyString => []
  end.

Definition digitsValue (ds : list Z) : Z :=
  foldl (fun acc d => acc * 16 + d) 0 ds.

Definition stripSign (s : string) : Z * string :=
  match s with
  | String ch rest =>
      if Ascii.eqb ch "-" then (-1, rest)
      else if Ascii.eqb ch "+" then (1, rest)
      else (1, s)
  | EmptyString => (1, s)
  end.

Definition strip0x (s : string) : string :=
  match s with
  | String c0 (String c1 rest) =>
      if Ascii.eqb c0 "0" && (Ascii.eqb c1 "x" || Ascii.eqb c1 "X") then rest else s
  | _ => s
  end.

Definition parseIntString16 (s : string) : option Z :=
  let signed := stripSign (trimStart s) in
  match hexPrefix (strip0x (snd signed)) with
  | [] => None
  | ds => Some (fst signed * digitsValue ds)
  end.

(** [colorString.replace(/^#/, '')]. *)
Definition stripHash (colorString : string) : string :=
  match colorString with
  | String ch rest => if Ascii.eqb ch "#" then rest else colorString
  | EmptyString => colorString
  end.

(** [getHexColorByIndex] (lines 253-257); [colorMap] is the table of
    [constants/colors].  Calling [replace] on [undefined] raises. *)
Definition getHexColorByIndex (colorMap : list string) (colorIndex : nat)
    : outcome (option Z) :=
  colorString ← defined (colorMap !! colorIndex);
  let color := parseIntString16 (stripHash colorString) in
  mret color.

(** A string of hexadecimal digits only. *)
Fixpoint allHex (s : string) : Prop :=
  match s with
  | String ch rest => is_Some (hexDigit ch) /\ allHex rest
  | EmptyString => True
  end.

(** * Notions used in the statements *)

(** The row and the column computed on lines 232-233. *)
Definition pixelRow (x : Q) : Z := centerRow + Qfloor (x / pixelSize + 0.5).
Definition pixelCol (y : Q) : Z := centerCol + Qfloor (y / pixelSize + 0.5).

(** The 2 x 2 image [[0, 1], [1, 0]]. *)
Definition smallGrid : list (list ascii) :=
  [ ["0"; "1"]; ["1"; "0"] ]%char.

(** The clamped size of a batch, computed by [getSize] from the camera and
    the depth of the batch. *)
Definition clampedSize {Color : Type} (tan : Q -> Q) (PI : Q) (innerHeight : positive)
    (cam : Camera) (pixelGroup : @Mesh Color) : Q :=
  Qmin pixelSize
       (MAX_PIXEL_SIZE_PX / inject_Z (Zpos innerHeight)
        * worldHeight tan PI cam pixelGroup)%Q.


(** What [updatePixelSize] leaves in a batch: the size uniform is assigned
    and flagged. *)
Definition resized {Color : Type} (tan : Q -> Q) (PI : Q) (innerHeight : positive)
    (cam : Camera) (pixelGroup : @Mesh Color) : @Mesh Color :=
  setSizeUniform pixelGroup
    (mkUniform (clampedSize tan PI innerHeight cam pixelGroup) (Some true)).

(** What [updateBufferGeometry] leaves in a batch. *)
Definition committed {Color : Type} (tan : Q -> Q) (PI : Q) (innerHeight : positive)
    (cam : Camera) (pixelGroup : @Mesh Color) : @Mesh Color :=
  setPosition pixelGroup
    (rewritePositions (clampedSize tan PI innerHeight cam pixelGroup) pixelGroup)
    true.

(** The manager built from the 2 x 2 image, with no colour table. *)
Definition smallManager (cam : Camera) : @PixelManager unit :=
  match constructor smallGrid [] cam with
  | Returned this => this
  | Thrown _ => mkPixelManager 0 0 [] [] cam
  end.

(** One turn of a loop that replaces batch [i] by [upd] of it: the common
    shape of the loops of [updatePixelSize] and [updateBufferGeometry]. *)
Definition updateGroupAt {Color : Type} (upd : Camera -> @Mesh Color -> @Mesh Color)
    (this : @PixelManager Color) (i : nat) : outcome (@PixelManager Color) :=
  g ← defined (pixelGroups this !! i);
  mret (setPixelGroups this (<[i := upd (camera this) g]> (pixelGroups this))).


(** The corner computed for vertex [j] (lines 199-216). *)
Definition cornerAt (size : Q) (centerBufferArray : list number)
    (vertexIndexBufferArray : list Z) (j : nat) : option number * option number :=
  cornerPosition size (vertexIndexBufferArray !! j)
    (centerBufferArray !! (j * 3 + 0)%nat)
    (centerBufferArray !! (j * 3 + 1)%nat).

Definition cornerOf {Color : Type} (size : Q) (pixelGroup : @Mesh Color) (j : nat)
    : option number * option number :=
  cornerAt size (centerArray pixelGroup) (vertexIndexArray pixelGroup) j.

(** Stand-ins for [Math.tan] (its value at 25 degrees) and [Math.PI], to
    run the model. *)
Definition tanStub : Q -> Q := fun _ => 4663 # 10000.
Definition piStub : Q := 314159 # 100000.

(** [Math.PI], and a [Math.tan] that answers at 25 degrees in radians (the
    binary64 number 7860264168920489 / 2^54, the one argument the examples
    of the rounded commit give it) the binary64 number 8400251982027441 /
    2^54 = 0.46630765815499864. *)
Definition mathPI : Q := 884279719003555 # 281474976710656.
Definition tan25 (x : Q) : Q :=
  if Qeq_bool x (7860264168920489 # 18014398509481984)
  then 8400251982027441 # 18014398509481984
  else 0.

(** Its first batch. *)
Definition smallMesh (cam : Camera) : @Mesh unit :=
  match pixelGroups (smallManager cam) with
  | g :: _ => g
  | [] => newMesh [] 0 emptyBufferGeometry
  end.

(** The six vertices [addColorVertex] appends for one pixel: the faces
    (0, 2, 1) and (2, 3, 1) of the translated plane. *)
Definition appendQuad (vertex : Vertex) (b : BufferGeometry) : BufferGeometry :=
  match vertices (translate (PlaneGeometry pixelSize pixelSize)
                            (vx vertex) (vy vertex) (vz vertex)) with
  | [v0; v1; v2; v3] =>
      appendFace v2 v3 v1 vertex (mkFace3 2 3 1)
        (appendFace v0 v2 v1 vertex (mkFace3 0 2 1) b)
  | _ => b
  end.

(** The batch of [bufferGeometries] at a place, if any. *)
Definition bufferAt (bufferGeometries : list (list BufferGeometry))
    (r : BufferRef) : option BufferGeometry :=
  bufferGeometries !! fst r ≫= (.!! snd r).

(** The three lists of a batch in lockstep, in whole triangles. *)
Definition lockstep (b : BufferGeometry) : Prop :=
  length (positions b) = length (centers b) /\
  length (positions b) = (3 * length (indices b))%nat /\
  (length (indices b) mod 3 = 0)%nat.

(** The number of vertices held by all the batches. *)
Definition vertexTotal (bufferGeometries : list (list BufferGeometry)) : nat :=
  sum_list_with (sum_list_with (fun b => length (indices b))) bufferGeometries.

(** The cell of the image at a row and a column, if any. *)
Definition cellAt (data : list (list ascii)) (i j : nat) : option ascii :=
  data !! i ≫= (.!! j).



(** A mesh as [createBufferGeometries] leaves it: typed arrays in lockstep,
    tags from 0 to 3, nothing flagged, at depth 0, size uniform at the
    nominal pixel size. *)
Definition freshMesh {Color : Type} (g : @Mesh Color) : Prop :=
  length (positionArray g) = length (centerArray g) /\
  length (positionArray g) = (3 * length (vertexIndexArray g))%nat /\
  Forall (fun t => 0 <= t <= 3) (vertexIndexArray g) /\
  positionNeedsUpdate g = false /\
  position_z g = 0%Q /\
  uniformSize g = mkUniform pixelSize None /\
  uniformDepthCompensation g = 1%Q.

(** A manager with one batch of a single vertex whose corner tag is 7. *)
Definition strayManager : @PixelManager unit :=
  mkPixelManager 1 1 []
    [ mkMesh 0 [Num 0; Num 0; Num 0] false [Num 0; Num 0; Num 0] [7] None
             (mkUniform pixelSize None) 1 ]
    (mkCamera 50 30).

(** The batches are laid out as the constructor allocated them. *)
Definition sameShape (data : list (list ascii))
    (s : list (list BufferGeometry)) : Prop :=
  length <$> s = length <$> initialBufferGeometries data.

(** The size [getSize_fl] computes for a batch. *)
Definition clampedSize_fl {Color : Type} (tan : Q -> Q) (PI : Q)
    (innerHeight : positive) (cam : Camera) (pixelGroup : @Mesh Color) : Q :=
  Qmin pixelSize
    (binary64
       (binary64 (MAX_PIXEL_SIZE_PX / inject_Z (Zpos innerHeight))
        * binary64
            (binary64
               (2 * binary64
                      (tan (binary64
                              (binary64 (binary64 (fov cam * binary64 PI) / 180) / 2))))
             * binary64
                 (camera_z cam
                  - binary64 (position_z pixelGroup / distanceOffset)))))%Q.

(** What [updateBufferGeometry_fl] leaves in a batch. *)
Definition committed_fl {Color : Type} (tan : Q -> Q) (PI : Q)
    (innerHeight : positive) (cam : Camera) (pixelGroup : @Mesh Color)
    : @Mesh Color :=
  setPosition pixelGroup
    (rewritePositions_fl (clampedSize_fl tan PI innerHeight cam pixelGroup) pixelGroup)
    true.

(** * Properties *)

(** ** Group assignment *)

Lemma ToInt32_small (z : Z) : 0 <= z < 2 ^ 31 -> ToInt32 z = z.
Proof.
  intros Hz. unfold ToInt32.
  rewrite Z.mod_small by lia.
  destruct (2 ^ 31 <=? z) eqn:E; [apply Z.leb_le in E; lia | reflexivity].
Qed.

Lemma calc_nonneg (rowIndex colIndex : Z) :
  0 <= rowIndex -> 0 <= colIndex -> 0 <= calc rowIndex colIndex.
Proof. intros Hr Hc. unfold calc. nia. Qed.

Lemma getNGroups_cases (colorIndex : option Z) :
  getNGroups colorIndex = 9 \/ getNGroups colorIndex = 3.
Proof.
  destruct colorIndex as [[| p | p] |]; cbn; auto.
Qed.

(** The hash of a cell whose [calc] fits in 31 bits is a remainder of a
    non-negative number: it is below the divisor [getNGroups - 1]. *)
Lemma groupNumber_below_divisor (colorIndex : option Z) (rowIndex colIndex : Z) :
  0 <= rowIndex -> 0 <= colIndex -> calc rowIndex colIndex < 2 ^ 31 ->
  0 <= groupNumber colorIndex rowIndex colIndex < getNGroups colorIndex - 1.
Proof.
  intros Hr Hc Hlt.
  pose proof (calc_nonneg _ _ Hr Hc) as H0.
  unfold groupNumber, js_rem, js_sar.
  rewrite ToInt32_small by lia.
  assert (Hs : 0 <= Z.shiftr (calc rowIndex colIndex) (Z.land MAGIC_NUMBER 31))
    by (apply Z.shiftr_nonneg; exact H0).
  destruct (getNGroups_cases colorIndex) as [-> | ->];
    apply Z.rem_bound_pos; lia.
Qed.

(** C7, as amended: for a cell with non-negative indices whose hash
    [row + col + row * row * col] is below 2^31, the group assignment is an
    index between 0 and [getNGroups colorIndex - 1]. *)
Theorem groupNumber_in_range (colorIndex : option Z) (rowIndex colIndex : Z) :
  0 <= rowIndex -> 0 <= colIndex -> calc rowIndex colIndex < 2 ^ 31 ->
  0 <= groupNumber colorIndex rowIndex colIndex <= getNGroups colorIndex - 1.
Proof.
  intros Hr Hc Hlt.
  pose proof (groupNumber_below_divisor colorIndex _ _ Hr Hc Hlt). lia.
Qed.

Lemma groupNumber_in_range_witness :
  0 <= groupNumber (Some 0) 264 137 <= getNGroups (Some 0) - 1.
Proof.
  apply (groupNumber_in_range (Some 0) 264 137); vm_compute; congruence.
Defined.

(** C7, as stated, fails once the hash leaves the 32-bit signed range: the
    cell (2000, 1000) of colour 0 is given group -1. *)
Lemma groupNumber_negative :
  groupNumber (Some 0) 2000 1000 = -1 /\
  ~ (0 <= groupNumber (Some 0) 2000 1000 <= getNGroups (Some 0) - 1).
Proof.
  split; [reflexivity |].
  vm_compute. intros [H _]. apply H. reflexivity.
Qed.

(** ** Coordinate mapping *)

Lemma js_index_Some {A : Type} (l : list A) (i : Z) :
  0 <= i < Z.of_nat (length l) -> is_Some (js_index l i).
Proof.
  intros [H0 H1]. unfold js_index.
  destruct (i <? 0) eqn:E; [apply Z.ltb_lt in E; lia |].
  apply lookup_lt_is_Some. lia.
Qed.

Lemma js_index_None {A : Type} (l : list A) (i : Z) :
  ~ (0 <= i < Z.of_nat (length l)) -> js_index l i = None.
Proof.
  intros H. unfold js_index.
  destruct (i <? 0) eqn:E; [reflexivity |].
  apply Z.ltb_ge in E. apply lookup_ge_None. lia.
Qed.

(** Rounding to nearest of an exact multiple of the pixel size. *)
Lemma Qfloor_scaled (z : Z) :
  Qfloor (inject_Z z * pixelSize / pixelSize + 0.5) = z.
Proof.
  assert (E : (inject_Z z * pixelSize / pixelSize + 0.5 == (2 * z + 1) # 2)%Q).
  { unfold pixelSize, PIXEL_SIZE, inject_Z, Qeq, Qdiv, Qmult, Qplus, Qinv.
    cbn. lia. }
  rewrite (Qfloor_comp _ _ E). unfold Qfloor.
  symmetry. apply (Z.div_unique _ _ z 1); lia.
Qed.

Lemma pixelRow_roundtrip (row col : Z) :
  pixelRow (px (getCoordinatesFromPixel row col)) = row.
Proof.
  unfold pixelRow, getCoordinatesFromPixel. cbn [px].
  rewrite Qfloor_scaled. lia.
Qed.

Lemma pixelCol_roundtrip (row col : Z) :
  pixelCol (py (getCoordinatesFromPixel row col)) = col.
Proof.
  unfold pixelCol, getCoordinatesFromPixel. cbn [py].
  rewrite Qfloor_scaled. lia.
Qed.

Lemma getPixelFromCoordinates_eq (data : list (list ascii)) (x y : Q) :
  getPixelFromCoordinates data x y =
  (r ← defined (js_index data (pixelRow x));
   mret (mkPixel (pixelRow x) (pixelCol y) (parseInt16 (js_index r (pixelCol y))))).
Proof. reflexivity. Qed.

(** C2: for a cell inside the grid, mapping it to world coordinates and back
    returns a pixel with the same row and the same column. *)
Theorem getPixelFromCoordinates_roundtrip
    (data : list (list ascii)) (n : Z) (row col : Z) :
  nCols data = Returned n ->
  0 <= row < nRows data -> 0 <= col < n ->
  exists colorIndex,
    getPixelFromCoordinates data
      (px (getCoordinatesFromPixel row col))
      (py (getCoordinatesFromPixel row col))
    = Returned (mkPixel row col colorIndex).
Proof.
  intros _ Hrow _.
  rewrite getPixelFromCoordinates_eq, pixelRow_roundtrip, pixelCol_roundtrip.
  destruct (js_index_Some data row Hrow) as [r Hr]. rewrite Hr.
  eexists. reflexivity.
Qed.

Lemma getPixelFromCoordinates_roundtrip_witness :
  exists colorIndex,
    getPixelFromCoordinates smallGrid
      (px (getCoordinatesFromPixel 1 0))
      (py (getCoordinatesFromPixel 1 0))
    = Returned (mkPixel 1 0 colorIndex).
Proof.
  apply (getPixelFromCoordinates_roundtrip smallGrid 2 1 0);
    [reflexivity | vm_compute; split; congruence | lia].
Defined.

(** C6, as stated, fails: on the 2 x 2 image the world point (0, 0) maps to
    row 132, outside the grid, and the call raises; the world point
    (-1320, 0) maps to row 0, column 76, and the call returns a pixel whose
    colour index is [NaN]. *)
Lemma getPixelFromCoordinates_no_explicit_error :
  (~ (0 <= pixelRow 0 < nRows smallGrid) /\
   getPixelFromCoordinates smallGrid 0 0 = Thrown TypeError) /\
  (~ (0 <= pixelCol 0 < 2) /\
   getPixelFromCoordinates smallGrid (-1320) 0 = Returned (mkPixel 0 76 None)).
Proof.
  split; (split; [vm_compute; intros [_ H]; discriminate H | reflexivity]).
Qed.

(** C6, as amended: when the computed row is outside the grid the call
    raises [TypeError]; when the row is inside and the computed column is
    outside that row, the call returns the row, the column and the colour
    index [NaN]. *)
Theorem getPixelFromCoordinates_outside (data : list (list ascii)) (x y : Q) :
  (~ (0 <= pixelRow x < nRows data) ->
   getPixelFromCoordinates data x y = Thrown TypeError) /\
  (forall r, js_index data (pixelRow x) = Some r ->
   ~ (0 <= pixelCol y < Z.of_nat (length r)) ->
   getPixelFromCoordinates data x y
   = Returned (mkPixel (pixelRow x) (pixelCol y) None)).
Proof.
  rewrite getPixelFromCoordinates_eq. split.
  - intros H. rewrite (js_index_None data _ H). reflexivity.
  - intros r Hr Hc. rewrite Hr. cbn.
    rewrite (js_index_None r _ Hc). reflexivity.
Qed.

Lemma getPixelFromCoordinates_outside_witness :
  getPixelFromCoordinates smallGrid 0 0 = Thrown TypeError.
Proof.
  apply (getPixelFromCoordinates_outside smallGrid 0 0).
  vm_compute. intros [_ H]. discriminate H.
Defined.

(** ** Anchors of the builder *)

Lemma inject_Z_sub (a b : Z) : (inject_Z (a - b) == inject_Z a - inject_Z b)%Q.
Proof.
  unfold Z.sub, Qminus. rewrite inject_Z_plus, inject_Z_opp. reflexivity.
Qed.

Lemma cellVertex_x (nRows nCols rowIndex colIndex : Z) :
  (vx (cellVertex nRows nCols rowIndex colIndex)
   == px (getCoordinatesFromPixel rowIndex colIndex)
      + (265 - inject_Z nRows) * 5)%Q.
Proof.
  unfold cellVertex, getCoordinatesFromPixel, offsetRow, pixelSize, PIXEL_SIZE,
    centerRow. cbn [vx px].
  rewrite inject_Z_sub. change (inject_Z 132) with (132 # 1)%Q.
  generalize (inject_Z nRows) (inject_Z rowIndex). intros a b. field.
Qed.

Lemma cellVertex_y (nRows nCols rowIndex colIndex : Z) :
  (vy (cellVertex nRows nCols rowIndex colIndex)
   == py (getCoordinatesFromPixel rowIndex colIndex)
      + (138 - inject_Z nCols) * 5)%Q.
Proof.
  unfold cellVertex, getCoordinatesFromPixel, offSetCol, pixelSize, PIXEL_SIZE,
    centerCol. cbn [vy py].
  rewrite inject_Z_sub. change (inject_Z 76) with (76 # 1)%Q.
  generalize (inject_Z nCols) (inject_Z colIndex). intros a b. field.
Qed.

(** C9, as amended: when the image has 265 rows and 138 columns, the anchor
    the builder gives a cell is the point [getCoordinatesFromPixel] returns
    for it, at depth 0, and the anchor of the centre cell is the origin. *)
Theorem cellVertex_matches_coordinates (rowIndex colIndex : Z) :
  ((vx (cellVertex 265 138 rowIndex colIndex)
    == px (getCoordinatesFromPixel rowIndex colIndex)) /\
   (vy (cellVertex 265 138 rowIndex colIndex)
    == py (getCoordinatesFromPixel rowIndex colIndex)) /\
   (vz (cellVertex 265 138 rowIndex colIndex) == 0))%Q /\
  ((vx (cellVertex 265 138 centerRow centerCol) == 0) /\
   (vy (cellVertex 265 138 centerRow centerCol) == 0) /\
   (vz (cellVertex 265 138 centerRow centerCol) == 0))%Q.
Proof.
  repeat split; try reflexivity.
  - rewrite cellVertex_x. change (inject_Z 265) with (265 # 1)%Q. lra.
  - rewrite cellVertex_y. change (inject_Z 138) with (138 # 1)%Q. lra.
Qed.

(** The agreement holds for no other image size. *)
Lemma cellVertex_matches_only_265_138 (nRows nCols rowIndex colIndex : Z) :
  (vx (cellVertex nRows nCols rowIndex colIndex)
   == px (getCoordinatesFromPixel rowIndex colIndex))%Q ->
  (vy (cellVertex nRows nCols rowIndex colIndex)
   == py (getCoordinatesFromPixel rowIndex colIndex))%Q ->
  nRows = 265 /\ nCols = 138.
Proof.
  rewrite cellVertex_x, cellVertex_y. intros Hx Hy.
  assert (Ex : (inject_Z nRows == inject_Z 265)%Q).
  { change (inject_Z 265) with (265 # 1)%Q. revert Hx.
    generalize (inject_Z nRows) (px (getCoordinatesFromPixel rowIndex colIndex)).
    intros a b Hx. lra. }
  assert (Ey : (inject_Z nCols == inject_Z 138)%Q).
  { change (inject_Z 138) with (138 # 1)%Q. revert Hy.
    generalize (inject_Z nCols) (py (getCoordinatesFromPixel rowIndex colIndex)).
    intros a b Hy. lra. }
  split; apply inject_Z_injective; assumption.
Qed.

(** C9, as stated, fails for an image of another size: with 300 rows and 200
    columns the centre cell is anchored at (-175, -310, 0), and the cell
    (0, 0) of the 2 x 2 image at (-5, -80, 0) where
    [getCoordinatesFromPixel] gives (-1320, -760). *)
Lemma cellVertex_center_not_origin :
  ((vx (cellVertex 300 200 centerRow centerCol) == -175) /\
   (vy (cellVertex 300 200 centerRow centerCol) == -310) /\
   ~ (vx (cellVertex 300 200 centerRow centerCol) == 0) /\
   (vx (cellVertex (nRows smallGrid) 2 0 0) == -5) /\
   (px (getCoordinatesFromPixel 0 0) == -1320) /\
   ~ (vx (cellVertex (nRows smallGrid) 2 0 0)
      == px (getCoordinatesFromPixel 0 0)))%Q.
Proof.
  repeat split; try reflexivity; intros H; vm_compute in H; discriminate H.
Qed.

(** ** Clamped size *)

Section Sizing.

Context {Color : Type}.
Variable tan : Q -> Q.
Variable PI : Q.
Variable innerHeight : positive.

Implicit Types (this : @PixelManager Color) (g : @Mesh Color).

Lemma getSize_eq this (i : nat) :
  getSize tan PI innerHeight this i
  = (g ← defined (pixelGroups this !! i);
     mret (clampedSize tan PI innerHeight (camera this) g)).
Proof. reflexivity. Qed.

Lemma getSize_Some this (i : nat) g :
  pixelGroups this !! i = Some g ->
  getSize tan PI innerHeight this i
  = Returned (clampedSize tan PI innerHeight (camera this) g).
Proof. intros H. rewrite getSize_eq, H. reflexivity. Qed.

Lemma maxPixelFraction_pos : (0 < MAX_PIXEL_SIZE_PX / inject_Z (Zpos innerHeight))%Q.
Proof.
  apply Qlt_shift_div_l.
  - unfold Qlt. cbn. lia.
  - rewrite Qmult_0_l. reflexivity.
Qed.



(** *** The rewriting of one position buffer *)

Lemma vertexCount_spec (len j : nat) :
  (j < vertexCount len)%nat <-> (3 * j < len)%nat.
Proof.
  unfold vertexCount. split; intros H.
  - destruct (Nat.le_gt_cases len (3 * j)) as [Hle | Hgt]; [| exact Hgt].
    exfalso. apply (Nat.lt_irrefl j).
    eapply Nat.lt_le_trans; [exact H |].
    apply Nat.lt_succ_r. apply Nat.Div0.div_lt_upper_bound. lia.
  - apply (Nat.div_le_lower_bound (len + 2) 3 (S j)); lia.
Qed.

Section Rewrite.

Variable size : Q.
Variables (centerBufferArray : list number) (vertexIndexBufferArray : list Z).

Implicit Types (pos : list number).

Lemma rewriteVertex_length pos (j : nat) :
  length (rewriteVertex size centerBufferArray vertexIndexBufferArray pos j)
  = length pos.
Proof. unfold rewriteVertex. rewrite !length_insert. reflexivity. Qed.

Lemma foldl_rewriteVertex_length (n : nat) pos :
  length (foldl (rewriteVertex size centerBufferArray vertexIndexBufferArray)
                pos (seq 0 n))
  = length pos.
Proof.
  induction n as [| n IH]; [reflexivity |].
  rewrite seq_S, foldl_app. cbn [foldl]. rewrite rewriteVertex_length. exact IH.
Qed.

Lemma foldl_rewriteVertex_x (n : nat) pos (j : nat) :
  (j < n)%nat -> (j * 3 + 0 < length pos)%nat ->
  foldl (rewriteVertex size centerBufferArray vertexIndexBufferArray)
        pos (seq 0 n) !! (j * 3 + 0)%nat
  = Some (ToNumber (fst (cornerAt size centerBufferArray vertexIndexBufferArray j))).
Proof.
  induction n as [| n IH]; intros Hj Hlen; [lia |].
  rewrite seq_S, foldl_app. cbn [foldl app Nat.add].
  unfold rewriteVertex at 1.
  rewrite list_lookup_insert_ne by lia.
  destruct (decide (j = n)) as [-> | Hne].
  - rewrite list_lookup_insert_eq; [reflexivity |].
    rewrite foldl_rewriteVertex_length. exact Hlen.
  - rewrite list_lookup_insert_ne by lia. apply IH; [lia | exact Hlen].
Qed.

Lemma foldl_rewriteVertex_y (n : nat) pos (j : nat) :
  (j < n)%nat -> (j * 3 + 1 < length pos)%nat ->
  foldl (rewriteVertex size centerBufferArray vertexIndexBufferArray)
        pos (seq 0 n) !! (j * 3 + 1)%nat
  = Some (ToNumber (snd (cornerAt size centerBufferArray vertexIndexBufferArray j))).
Proof.
  induction n as [| n IH]; intros Hj Hlen; [lia |].
  rewrite seq_S, foldl_app. cbn [foldl app Nat.add].
  unfold rewriteVertex at 1.
  destruct (decide (j = n)) as [-> | Hne].
  - rewrite list_lookup_insert_eq; [reflexivity |].
    rewrite length_insert, foldl_rewriteVertex_length. exact Hlen.
  - rewrite !list_lookup_insert_ne by lia. apply IH; [lia | exact Hlen].
Qed.

Lemma foldl_rewriteVertex_z (n : nat) pos (j : nat) :
  foldl (rewriteVertex size centerBufferArray vertexIndexBufferArray)
        pos (seq 0 n) !! (j * 3 + 2)%nat
  = pos !! (j * 3 + 2)%nat.
Proof.
  induction n as [| n IH]; [reflexivity |].
  rewrite seq_S, foldl_app. cbn [foldl app Nat.add].
  unfold rewriteVertex at 1.
  rewrite !list_lookup_insert_ne by lia. exact IH.
Qed.

End Rewrite.

Lemma rewritePositions_length (size : Q) g :
  length (rewritePositions size g) = length (positionArray g).
Proof. apply foldl_rewriteVertex_length. Qed.

Lemma rewritePositions_x (size : Q) g (j : nat) :
  (j * 3 + 0 < length (positionArray g))%nat ->
  rewritePositions size g !! (j * 3 + 0)%nat
  = Some (ToNumber (fst (cornerOf size g j))).
Proof.
  intros H. apply foldl_rewriteVertex_x; [| exact H].
  apply vertexCount_spec. lia.
Qed.

Lemma rewritePositions_y (size : Q) g (j : nat) :
  (j * 3 + 1 < length (positionArray g))%nat ->
  rewritePositions size g !! (j * 3 + 1)%nat
  = Some (ToNumber (snd (cornerOf size g j))).
Proof.
  intros H. apply foldl_rewriteVertex_y; [| exact H].
  apply vertexCount_spec. lia.
Qed.

Lemma rewritePositions_z (size : Q) g (j : nat) :
  rewritePositions size g !! (j * 3 + 2)%nat = positionArray g !! (j * 3 + 2)%nat.
Proof. apply foldl_rewriteVertex_z. Qed.

(** *** The loops over the batches *)

Lemma forEach_ext {S A : Type} (f g : S -> A -> outcome S) (l : list A) (s : S) :
  (forall s a, f s a = g s a) -> forEach f l s = forEach g l s.
Proof.
  intros E. revert s. induction l as [| a l IH]; intros s; cbn; [reflexivity |].
  rewrite E. destruct (g s a); cbn; [apply IH | reflexivity].
Qed.

Lemma updateGroupAt_Some upd this (i : nat) g :
  pixelGroups this !! i = Some g ->
  updateGroupAt upd this i
  = Returned (setPixelGroups this (<[i := upd (camera this) g]> (pixelGroups this))).
Proof. intros H. unfold updateGroupAt. rewrite H. reflexivity. Qed.

Lemma setPixelGroups_id this : setPixelGroups this (pixelGroups this) = this.
Proof. destruct this; reflexivity. Qed.

Lemma forEach_updateGroupAt_range upd (n : nat) :
  forall (k : nat) this,
    (k + n <= length (pixelGroups this))%nat ->
    exists groups,
      forEach (updateGroupAt upd) (seq k n) this
      = Returned (setPixelGroups this groups) /\
      length groups = length (pixelGroups this) /\
      forall j, groups !! j
                = if decide (k <= j < k + n)%nat
                  then upd (camera this) <$> pixelGroups this !! j
                  else pixelGroups this !! j.
Proof.
  induction n as [| n IH]; intros k this Hk.
  - exists (pixelGroups this). cbn. rewrite setPixelGroups_id.
    repeat split. intros j. case_decide; [lia | reflexivity].
  - destruct (lookup_lt_is_Some_2 (pixelGroups this) k ltac:(lia)) as [g Hg].
    cbn [seq forEach]. rewrite (updateGroupAt_Some upd this k g Hg). cbn [mbind outcome_bind].
    set (this1 := setPixelGroups this (<[k:=upd (camera this) g]> (pixelGroups this))).
    destruct (IH (S k) this1) as (groups & Hrun & Hlen & Hget).
    { subst this1. cbn. rewrite length_insert. lia. }
    exists groups. split; [exact Hrun |]. split.
    { rewrite Hlen. subst this1. cbn. apply length_insert. }
    intros j. rewrite Hget. subst this1. cbn.
    destruct (decide (j = k)) as [-> | Hne].
    + rewrite list_lookup_insert_eq by lia.
      rewrite Hg. repeat case_decide; try lia. reflexivity.
    + rewrite list_lookup_insert_ne by congruence.
      repeat case_decide; try lia; reflexivity.
Qed.

Lemma forEach_updateGroupAt upd this :
  forEach (updateGroupAt upd) (seq 0 (length (pixelGroups this))) this
  = Returned (setPixelGroups this (upd (camera this) <$> pixelGroups this)).
Proof.
  destruct (forEach_updateGroupAt_range upd (length (pixelGroups this)) 0%nat this)
    as (groups & Hrun & Hlen & Hget); [lia |].
  rewrite Hrun. do 2 f_equal. apply list_eq. intros j.
  rewrite Hget, list_lookup_fmap.
  case_decide as Hj; [reflexivity |].
  rewrite lookup_ge_None_2 by lia. reflexivity.
Qed.

(** [updatePixelSize] returns, and every batch has been assigned and flagged:
    the test on line 177 never fails. *)
Lemma updatePixelSize_eq this :
  updatePixelSize tan PI innerHeight this
  = Returned (setPixelGroups this
                (resized tan PI innerHeight (camera this) <$> pixelGroups this)).
Proof.
  rewrite <- forEach_updateGroupAt. apply forEach_ext.
  intros s i. unfold updateGroupAt. rewrite getSize_eq.
  destruct (pixelGroups s !! i); reflexivity.
Qed.

Lemma updateBufferGeometry_eq this :
  updateBufferGeometry tan PI innerHeight this
  = Returned (setPixelGroups this
                (committed tan PI innerHeight (camera this) <$> pixelGroups this)).
Proof.
  rewrite <- forEach_updateGroupAt. apply forEach_ext.
  intros s i. unfold updateGroupAt. rewrite getSize_eq.
  destruct (pixelGroups s !! i); reflexivity.
Qed.

(** C1 fails on the code: a batch whose size uniform already holds the size
    [getSize] computes is assigned again and flagged for upload. *)
Theorem updatePixelSize_flags_unchanged_uniform this (i : nat) g :
  pixelGroups this !! i = Some g ->
  (value (uniformSize g) == clampedSize tan PI innerHeight (camera this) g)%Q ->
  needsUpdate (uniformSize g) = None ->
  exists this' g',
    updatePixelSize tan PI innerHeight this = Returned this' /\
    pixelGroups this' !! i = Some g' /\
    (value (uniformSize g') == value (uniformSize g))%Q /\
    needsUpdate (uniformSize g') = Some true /\
    uniformSize g' <> uniformSize g.
Proof.
  intros Hg Hv Hn. eexists _, _. split; [apply updatePixelSize_eq |].
  cbn. rewrite list_lookup_fmap, Hg. cbn.
  split; [reflexivity |]. split; [symmetry; exact Hv |].
  split; [reflexivity |].
  intros E. rewrite <- E in Hn. discriminate Hn.
Qed.

(** *** The geometry commit *)

(** C10: [updateBufferGeometry] returns; in every batch the centre buffer
    and the corner-index buffer are the same, the position buffer keeps its
    length and the z of every vertex; nothing else of the batch changes but
    the flag of the position buffer. *)
Theorem updateBufferGeometry_frame this :
  exists this',
    updateBufferGeometry tan PI innerHeight this = Returned this' /\
    length (pixelGroups this') = length (pixelGroups this) /\
    forall (i : nat) g, pixelGroups this !! i = Some g ->
      exists g',
        pixelGroups this' !! i = Some g' /\
        centerArray g' = centerArray g /\
        vertexIndexArray g' = vertexIndexArray g /\
        length (positionArray g') = length (positionArray g) /\
        (forall j : nat,
            positionArray g' !! (3 * j + 2)%nat = positionArray g !! (3 * j + 2)%nat) /\
        position_z g' = position_z g /\
        uniformSize g' = uniformSize g /\
        uniformColor g' = uniformColor g /\
        uniformDepthCompensation g' = uniformDepthCompensation g.
Proof.
  eexists. split; [apply updateBufferGeometry_eq |].
  cbn [pixelGroups setPixelGroups]. split; [apply length_fmap |].
  intros i g Hg. exists (committed tan PI innerHeight (camera this) g).
  rewrite list_lookup_fmap, Hg.
  split; [reflexivity |].
  unfold committed, setPosition.
  cbn [positionArray centerArray vertexIndexArray position_z uniformSize
       uniformColor uniformDepthCompensation].
  repeat split; try reflexivity.
  - apply rewritePositions_length.
  - intros j. replace (3 * j + 2)%nat with (j * 3 + 2)%nat by lia.
    apply rewritePositions_z.
Qed.

End Sizing.

(** *** Instances *)


Lemma updatePixelSize_flags_unchanged_uniform_witness :
  exists this' g',
    updatePixelSize tanStub piStub 900 (smallManager (mkCamera 50 100)) = Returned this' /\
    pixelGroups this' !! 0%nat = Some g' /\
    needsUpdate (uniformSize g') = Some true.
Proof.
  destruct (updatePixelSize_flags_unchanged_uniform tanStub piStub 900
              (smallManager (mkCamera 50 100)) 0 _ eq_refl)
    as (this' & g' & H1 & H2 & _ & H4 & _).
  - vm_compute. reflexivity.
  - reflexivity.
  - exists this', g'. repeat split; assumption.
Defined.

(** ** The builder *)

Lemma modifyBuffer_compose (r : BufferRef) (f1 f2 : BufferGeometry -> BufferGeometry)
    (bgs : list (list BufferGeometry)) :
  modifyBuffer r f2 (modifyBuffer r f1 bgs) = modifyBuffer r (fun b => f2 (f1 b)) bgs.
Proof.
  unfold modifyBuffer. rewrite list_alter_alter_eq.
  apply list_alter_ext; [| reflexivity].
  intros bucket _. cbn. apply list_alter_alter_eq.
Qed.

Lemma bufferAt_modifyBuffer_eq (r : BufferRef) f (bgs : list (list BufferGeometry)) :
  bufferAt (modifyBuffer r f bgs) r = f <$> bufferAt bgs r.
Proof.
  unfold bufferAt, modifyBuffer. rewrite list_lookup_alter_eq.
  destruct (bgs !! r.1) as [bucket |]; cbn; [| reflexivity].
  apply list_lookup_alter_eq.
Qed.

Lemma bufferAt_modifyBuffer_ne (r r' : BufferRef) f (bgs : list (list BufferGeometry)) :
  r <> r' -> bufferAt (modifyBuffer r f bgs) r' = bufferAt bgs r'.
Proof.
  intros Hne. unfold bufferAt, modifyBuffer.
  destruct r as [i g], r' as [i' g']. cbn.
  destruct (decide (i = i')) as [<- | Hi].
  - rewrite list_lookup_alter_eq.
    destruct (bgs !! i) as [bucket |]; cbn; [| reflexivity].
    apply list_lookup_alter_ne. congruence.
  - rewrite list_lookup_alter_ne by exact Hi. reflexivity.
Qed.

(** [addColorVertex] appends the quad to the batch it is routed to, and
    raises when there is none. *)
Lemma addColorVertex_eq (bgs : list (list BufferGeometry)) (colorIndex : option Z)
    (rowIndex colIndex : Z) (vertex : Vertex) :
  addColorVertex bgs colorIndex rowIndex colIndex vertex
  = (bufferGeometry ← targetBuffer bgs colorIndex rowIndex colIndex;
     r ← defined bufferGeometry;
     mret (modifyBuffer r (appendQuad vertex) bgs)).
Proof.
  unfold addColorVertex.
  destruct (targetBuffer bgs colorIndex rowIndex colIndex) as [[r |] | e];
    try reflexivity.
  pose (v := fun k : Z =>
          default vertex
            (js_index (vertices (translate (PlaneGeometry pixelSize pixelSize)
                                   (vx vertex) (vy vertex) (vz vertex))) k)).
  transitivity
    (Returned
       (modifyBuffer r (appendFace (v 2) (v 3) (v 1) vertex (mkFace3 2 3 1))
          (modifyBuffer r (appendFace (v 0) (v 2) (v 1) vertex (mkFace3 0 2 1))
             bgs))); [reflexivity |].
  rewrite modifyBuffer_compose. reflexivity.
Qed.

Lemma getBufferGeometry_Some (bgs : list (list BufferGeometry)) (c g : Z)
    (bucket : list BufferGeometry) :
  js_index bgs c = Some bucket -> is_Some (js_index bucket g) ->
  getBufferGeometry bgs (Some c) g = Returned (Some (Z.to_nat c, Z.to_nat g)).
Proof.
  intros Hb [b Hg]. unfold getBufferGeometry. cbn. rewrite Hb. cbn.
  rewrite Hg. reflexivity.
Qed.


Lemma isCenter_true (rowIndex colIndex : Z) :
  isCenter rowIndex colIndex = true <-> rowIndex = centerRow /\ colIndex = centerCol.
Proof.
  unfold isCenter. rewrite andb_true_iff, !Z.eqb_eq. reflexivity.
Qed.




(** *** Lockstep of the three lists *)

Lemma forEach_invariant {S A : Type} (P : S -> Prop) (body : S -> A -> outcome S)
    (l : list A) :
  (forall s a s', P s -> body s a = Returned s' -> P s') ->
  forall s s', P s -> forEach body l s = Returned s' -> P s'.
Proof.
  intros Hbody. induction l as [| a l IH]; intros s s' Hs Hrun; cbn in Hrun.
  - injection Hrun as <-. exact Hs.
  - destruct (body s a) as [s1 |] eqn:E; [| discriminate Hrun].
    cbn in Hrun. eapply IH; [| exact Hrun]. eapply Hbody; eassumption.
Qed.

Lemma lockstep_empty : lockstep emptyBufferGeometry.
Proof. repeat split. Qed.

Lemma lockstep_appendFace (vA vB vC vertex : Vertex) (face : Face3) (b : BufferGeometry) :
  lockstep b -> lockstep (appendFace vA vB vC vertex face b).
Proof.
  intros (H1 & H2 & H3). unfold lockstep, appendFace. cbn [positions centers indices].
  rewrite !length_app. cbn [length].
  repeat split; try lia.
  replace (length (indices b) + 3)%nat with (length (indices b) + 1 * 3)%nat by lia.
  rewrite Nat.Div0.mod_add. exact H3.
Qed.

Lemma lockstep_appendQuad (vertex : Vertex) (b : BufferGeometry) :
  lockstep b -> lockstep (appendQuad vertex b).
Proof.
  intros H. unfold appendQuad. cbn [vertices translate PlaneGeometry map].
  apply lockstep_appendFace, lockstep_appendFace, H.
Qed.

Lemma lockstep_modifyBuffer (r : BufferRef) (f : BufferGeometry -> BufferGeometry)
    (bgs : list (list BufferGeometry)) :
  (forall b, lockstep b -> lockstep (f b)) ->
  Forall (Forall lockstep) bgs -> Forall (Forall lockstep) (modifyBuffer r f bgs).
Proof.
  intros Hf Hall. unfold modifyBuffer.
  apply Forall_alter; [exact Hall |].
  intros bucket _ Hbucket. apply Forall_alter; [exact Hbucket |].
  intros b _. apply Hf.
Qed.

Lemma lockstep_addColorVertex (bgs bgs' : list (list BufferGeometry))
    (colorIndex : option Z) (rowIndex colIndex : Z) (vertex : Vertex) :
  Forall (Forall lockstep) bgs ->
  addColorVertex bgs colorIndex rowIndex colIndex vertex = Returned bgs' ->
  Forall (Forall lockstep) bgs'.
Proof.
  intros Hall. rewrite addColorVertex_eq.
  destruct (targetBuffer bgs colorIndex rowIndex colIndex) as [[r |] | e];
    cbn; intros Hrun; try discriminate Hrun.
  injection Hrun as <-.
  apply lockstep_modifyBuffer; [apply lockstep_appendQuad | exact Hall].
Qed.

Lemma lockstep_addColorVertices (data : list (list ascii)) (nCols : Z)
    (bgs bgs' : list (list BufferGeometry)) :
  Forall (Forall lockstep) bgs ->
  addColorVertices data nCols bgs = Returned bgs' ->
  Forall (Forall lockstep) bgs'.
Proof.
  unfold addColorVertices. apply forEach_invariant.
  intros s rowIndex s' Hs. revert s s' Hs. apply forEach_invariant.
  intros s colIndex s' Hs.
  destruct (js_index data rowIndex) as [row |]; cbn; [| discriminate].
  apply lockstep_addColorVertex. exact Hs.
Qed.

Lemma lockstep_initial (data : list (list ascii)) :
  Forall (Forall lockstep) (initialBufferGeometries data).
Proof.
  unfold initialBufferGeometries. apply Forall_fmap, Forall_forall.
  intros kc _. cbn. apply Forall_replicate, lockstep_empty.
Qed.

(** C5: in the manager the constructor returns, every batch has as many
    position floats as centre floats, three times as many as corner tags,
    and a number of corner tags that is a multiple of 3. *)
Theorem constructor_lockstep {Color : Type} (data : list (list ascii))
    (threeColorsByIndex : list Color) (cam : Camera) (this : @PixelManager Color) :
  constructor data threeColorsByIndex cam = Returned this ->
  forall (bucket : list BufferGeometry) (b : BufferGeometry),
    bucket ∈ bufferGeometries this -> b ∈ bucket ->
    length (positions b) = length (centers b) /\
    length (positions b) = (3 * length (indices b))%nat /\
    (length (indices b) mod 3 = 0)%nat.
Proof.
  unfold constructor. intros Hrun bucket b Hbucket Hb.
  destruct (nCols data) as [n |]; [| discriminate Hrun]. cbn in Hrun.
  destruct (addColorVertices data n (initialBufferGeometries data)) as [bgs |] eqn:E;
    [| discriminate Hrun].
  cbn in Hrun. injection Hrun as <-. cbn in Hbucket.
  pose proof (lockstep_addColorVertices data n _ bgs (lockstep_initial data) E) as Hall.
  rewrite Forall_forall in Hall. specialize (Hall bucket Hbucket).
  rewrite Forall_forall in Hall. exact (Hall b Hb).
Qed.

Lemma constructor_lockstep_witness :
  exists this : @PixelManager unit,
    constructor smallGrid [] (mkCamera 50 30) = Returned this /\
    Forall (Forall lockstep) (bufferGeometries this).
Proof.
  exists (smallManager (mkCamera 50 30)). split; [reflexivity |].
  apply Forall_forall. intros bucket Hbucket.
  apply Forall_forall. intros b Hb.
  exact (constructor_lockstep smallGrid [] (mkCamera 50 30) _ eq_refl bucket b Hbucket Hb).
Defined.

(** The 2 x 2 image is built without an exception, and its four cells give
    24 vertices in all. *)
Example constructor_smallGrid_vertices :
  constructor smallGrid ([] : list unit) (mkCamera 50 30)
  = Returned (smallManager (mkCamera 50 30)) /\
  sum_list (map (fun b => length (indices b))
                (concat (bufferGeometries (smallManager (mkCamera 50 30)))))
  = 24%nat.
Proof. split; reflexivity. Qed.

(** * Further properties of the code *)

(** ** Picking *)

Lemma Qfloor_bounds (t : Q) :
  (inject_Z (Qfloor t) <= t < inject_Z (Qfloor t) + 1)%Q.
Proof.
  split; [apply Qfloor_le |].
  pose proof (Qlt_floor t) as H. rewrite inject_Z_plus in H. exact H.
Qed.

Lemma snap_bounds (x : Q) (f : Z) :
  f = Qfloor (x / pixelSize + 0.5) ->
  (inject_Z f * pixelSize - pixelSize / 2 <= x
   < inject_Z f * pixelSize + pixelSize / 2)%Q.
Proof.
  intros ->. pose proof (Qfloor_bounds (x / pixelSize + 0.5)) as [H1 H2].
  revert H1 H2. generalize (inject_Z (Qfloor (x / pixelSize + 0.5))).
  intros u. unfold pixelSize, PIXEL_SIZE, Qdiv.
  change (/ 10)%Q with (1 # 10)%Q. change (/ 2)%Q with (1 # 2)%Q.
  intros H1 H2. split; lra.
Qed.

(** X1: a pixel returned for a world point is the cell whose centre is
    nearest: the point lies within half a pixel of the centre that
    [getCoordinatesFromPixel] gives for that cell, on both axes. *)
Theorem getPixelFromCoordinates_nearest (data : list (list ascii)) (x y : Q)
    (p : Pixel) :
  getPixelFromCoordinates data x y = Returned p ->
  (px (getCoordinatesFromPixel (row p) (col p)) - pixelSize / 2 <= x
   < px (getCoordinatesFromPixel (row p) (col p)) + pixelSize / 2)%Q /\
  (py (getCoordinatesFromPixel (row p) (col p)) - pixelSize / 2 <= y
   < py (getCoordinatesFromPixel (row p) (col p)) + pixelSize / 2)%Q.
Proof.
  rewrite getPixelFromCoordinates_eq.
  destruct (js_index data (pixelRow x)) as [r |]; cbn; [| discriminate].
  intros E. injection E as <-. cbn [row col px py getCoordinatesFromPixel].
  unfold pixelRow, pixelCol.
  replace (centerRow + Qfloor (x / pixelSize + 0.5) - centerRow)
    with (Qfloor (x / pixelSize + 0.5)) by lia.
  replace (centerCol + Qfloor (y / pixelSize + 0.5) - centerCol)
    with (Qfloor (y / pixelSize + 0.5)) by lia.
  split; apply snap_bounds; reflexivity.
Qed.

Lemma getPixelFromCoordinates_nearest_witness :
  (px (getCoordinatesFromPixel 0 1) - pixelSize / 2 <= -1323
   < px (getCoordinatesFromPixel 0 1) + pixelSize / 2)%Q.
Proof.
  apply (getPixelFromCoordinates_nearest smallGrid (-1323) (-748)
           (mkPixel 0 1 (Some 1))).
  reflexivity.
Defined.

(** X2: for a cell that exists in the image, the round trip through world
    coordinates returns the row, the column and the colour index written in
    that cell. *)
Theorem getPixelFromCoordinates_roundtrip_colour (data : list (list ascii))
    (row col : Z) (r : list ascii) (ch : ascii) :
  js_index data row = Some r ->
  js_index r col = Some ch ->
  getPixelFromCoordinates data
    (px (getCoordinatesFromPixel row col))
    (py (getCoordinatesFromPixel row col))
  = Returned (mkPixel row col (hexDigit ch)).
Proof.
  intros Hr Hc.
  rewrite getPixelFromCoordinates_eq, pixelRow_roundtrip, pixelCol_roundtrip.
  rewrite Hr. cbn. rewrite Hc. reflexivity.
Qed.

Lemma getPixelFromCoordinates_roundtrip_colour_witness :
  getPixelFromCoordinates smallGrid
    (px (getCoordinatesFromPixel 1 0))
    (py (getCoordinatesFromPixel 1 0))
  = Returned (mkPixel 1 0 (Some 1)).
Proof.
  apply (getPixelFromCoordinates_roundtrip_colour smallGrid 1 0
           ["1"; "0"]%char "1"%char); reflexivity.
Defined.

(** ** One call of [addColorVertex] *)

Lemma js_index_lookup {A : Type} (l : list A) (i : Z) (x : A) :
  js_index l i = Some x -> l !! Z.to_nat i = Some x.
Proof. unfold js_index. destruct (i <? 0); [discriminate | auto]. Qed.

Lemma getBufferGeometry_valid (bgs : list (list BufferGeometry))
    (colorIndex : option Z) (g : Z) (r : BufferRef) :
  getBufferGeometry bgs colorIndex g = Returned (Some r) ->
  is_Some (bufferAt bgs r).
Proof.
  unfold getBufferGeometry, bufferAt.
  destruct colorIndex as [c |]; cbn; [| discriminate].
  destruct (js_index bgs c) as [bucket |] eqn:Hb; cbn; [| discriminate].
  destruct (js_index bucket g) as [b |] eqn:Hg; cbn; [| discriminate].
  intros [= <-]. cbn.
  rewrite (js_index_lookup _ _ _ Hb). cbn.
  rewrite (js_index_lookup _ _ _ Hg). eauto.
Qed.

Lemma targetBuffer_valid (bgs : list (list BufferGeometry))
    (colorIndex : option Z) (rowIndex colIndex : Z) (r : BufferRef) :
  targetBuffer bgs colorIndex rowIndex colIndex = Returned (Some r) ->
  is_Some (bufferAt bgs r).
Proof.
  unfold targetBuffer.
  destruct (getBufferGeometry bgs colorIndex
              (groupNumber colorIndex rowIndex colIndex)) as [t |] eqn:E;
    cbn; [| discriminate].
  destruct (isCenter rowIndex colIndex).
  - apply getBufferGeometry_valid.
  - intros E'. injection E' as ->. eapply getBufferGeometry_valid. exact E.
Qed.

Lemma addColorVertex_Returned (bgs bgs' : list (list BufferGeometry))
    (colorIndex : option Z) (rowIndex colIndex : Z) (vertex : Vertex) :
  addColorVertex bgs colorIndex rowIndex colIndex vertex = Returned bgs' ->
  exists r b,
    targetBuffer bgs colorIndex rowIndex colIndex = Returned (Some r) /\
    bufferAt bgs r = Some b /\
    bgs' = modifyBuffer r (appendQuad vertex) bgs.
Proof.
  rewrite addColorVertex_eq.
  destruct (targetBuffer bgs colorIndex rowIndex colIndex) as [[r |] | e] eqn:E;
    cbn; try discriminate.
  intros H. injection H as <-.
  destruct (targetBuffer_valid _ _ _ _ _ E) as [b Hb].
  exists r, b. repeat split. exact Hb.
Qed.

(** X3: for a cell with non-negative indices whose hash
    [row + col + row * row * col] is below 2^31, the group is the hash
    divided by 128, rounded down, then reduced modulo 8 for colour 0 and
    modulo 2 for any other colour: the shift by 551 is a shift by 7, and 128
    consecutive values of the hash share a group. *)
Theorem groupNumber_div_128 (colorIndex : option Z) (rowIndex colIndex : Z) :
  0 <= rowIndex -> 0 <= colIndex ->
  rowIndex + colIndex + rowIndex * rowIndex * colIndex < 2 ^ 31 ->
  (colorIndex = Some 0 ->
   groupNumber colorIndex rowIndex colIndex
   = (rowIndex + colIndex + rowIndex * rowIndex * colIndex) / 128 mod 8) /\
  (colorIndex <> Some 0 ->
   groupNumber colorIndex rowIndex colIndex
   = (rowIndex + colIndex + rowIndex * rowIndex * colIndex) / 128 mod 2).
Proof.
  intros Hr Hc Hlt.
  pose proof (calc_nonneg _ _ Hr Hc) as H0. unfold calc in H0.
  assert (Hq : 0 <= (rowIndex + colIndex + rowIndex * rowIndex * colIndex) / 128)
    by (apply Z.div_pos; lia).
  assert (Hg : forall n, 0 < n ->
            js_rem (js_sar (calc rowIndex colIndex) MAGIC_NUMBER) n
            = (rowIndex + colIndex + rowIndex * rowIndex * colIndex) / 128 mod n).
  { intros n Hn. unfold js_rem, js_sar, calc.
    rewrite ToInt32_small by lia.
    change (Z.land MAGIC_NUMBER 31) with 7.
    rewrite Z.shiftr_div_pow2 by lia. change (2 ^ 7) with 128.
    apply Z.rem_mod_nonneg; lia. }
  unfold groupNumber. split.
  - intros ->. apply (Hg 8). lia.
  - intros Hne.
    assert (E : getNGroups colorIndex = 3).
    { destruct colorIndex as [[| p | p] |]; try reflexivity. contradiction. }
    rewrite E. apply (Hg 2). lia.
Qed.

Lemma groupNumber_div_128_witness :
  groupNumber (Some 0) 3 200 = (3 + 200 + 3 * 3 * 200) / 128 mod 8.
Proof.
  apply (proj1 (groupNumber_div_128 (Some 0) 3 200 ltac:(lia) ltac:(lia) ltac:(lia))).
  reflexivity.
Defined.

(** X4: a call of [addColorVertex] that returns has appended the six
    vertices of the pixel to exactly one batch, and every other batch is as
    it was. *)
Theorem addColorVertex_frame (bgs bgs' : list (list BufferGeometry))
    (colorIndex : option Z) (rowIndex colIndex : Z) (vertex : Vertex) :
  addColorVertex bgs colorIndex rowIndex colIndex vertex = Returned bgs' ->
  exists r b,
    bufferAt bgs r = Some b /\
    bufferAt bgs' r = Some (appendQuad vertex b) /\
    length (indices (appendQuad vertex b)) = (length (indices b) + 6)%nat /\
    length (positions (appendQuad vertex b)) = (length (positions b) + 18)%nat /\
    length (centers (appendQuad vertex b)) = (length (centers b) + 18)%nat /\
    forall r', r' <> r -> bufferAt bgs' r' = bufferAt bgs r'.
Proof.
  intros H. destruct (addColorVertex_Returned _ _ _ _ _ _ H) as (r & b & _ & Hb & ->).
  exists r, b. split; [exact Hb |]. split.
  { rewrite bufferAt_modifyBuffer_eq, Hb. reflexivity. }
  unfold appendQuad, appendFace.
  cbn [vertices translate PlaneGeometry map positions centers indices].
  rewrite !length_app. cbn [length].
  repeat split; try lia.
  intros r' Hne. apply bufferAt_modifyBuffer_ne. congruence.
Qed.

Lemma addColorVertex_frame_witness :
  exists r b,
    bufferAt (initialBufferGeometries smallGrid) r = Some b /\
    length (indices (appendQuad (mkVertex 0 0 0) b)) = (length (indices b) + 6)%nat.
Proof.
  destruct (addColorVertex_frame (initialBufferGeometries smallGrid)
              (modifyBuffer (1%nat, 0%nat) (appendQuad (mkVertex 0 0 0))
                 (initialBufferGeometries smallGrid))
              (Some 1) 0 1 (mkVertex 0 0 0) eq_refl)
    as (r & b & H1 & _ & H3 & _).
  exists r, b. split; assumption.
Defined.

(** X5: a cell whose colour index is [NaN], or whose colour has no bucket,
    makes [addColorVertex] raise, the centre cell included: the lookup of
    line 63 comes before the override. *)
Theorem addColorVertex_no_bucket (bgs : list (list BufferGeometry))
    (colorIndex : option Z) (rowIndex colIndex : Z) (vertex : Vertex) :
  js_index_num bgs colorIndex = None ->
  addColorVertex bgs colorIndex rowIndex colIndex vertex = Thrown TypeError.
Proof.
  intros H. rewrite addColorVertex_eq. unfold targetBuffer, getBufferGeometry.
  rewrite H. reflexivity.
Qed.

Lemma addColorVertex_no_bucket_witness :
  addColorVertex (initialBufferGeometries smallGrid) (Some 5) centerRow centerCol
    (mkVertex 0 0 0)
  = Thrown TypeError.
Proof.
  apply (addColorVertex_no_bucket (initialBufferGeometries smallGrid) (Some 5)).
  reflexivity.
Defined.

(** X6: when the hash selects a group the bucket does not have, a cell other
    than the centre makes [addColorVertex] raise, while the centre cell is
    still appended to batch (0, 0). *)
Theorem addColorVertex_no_group (bgs : list (list BufferGeometry))
    (c : Z) (rowIndex colIndex : Z) (vertex : Vertex) (bucket : list BufferGeometry) :
  js_index bgs c = Some bucket ->
  js_index bucket (groupNumber (Some c) rowIndex colIndex) = None ->
  (~ (rowIndex = centerRow /\ colIndex = centerCol) ->
   addColorVertex bgs (Some c) rowIndex colIndex vertex = Thrown TypeError) /\
  (rowIndex = centerRow -> colIndex = centerCol ->
   is_Some (bufferAt bgs (0%nat, 0%nat)) ->
   addColorVertex bgs (Some c) rowIndex colIndex vertex
   = Returned (modifyBuffer (0%nat, 0%nat) (appendQuad vertex) bgs)).
Proof.
  intros Hb Hg.
  assert (Hget : getBufferGeometry bgs (Some c)
                   (groupNumber (Some c) rowIndex colIndex) = Returned None).
  { unfold getBufferGeometry. cbn. rewrite Hb. cbn. rewrite Hg. reflexivity. }
  split.
  - intros Hnc. rewrite addColorVertex_eq. unfold targetBuffer. rewrite Hget.
    cbn [mbind outcome_bind].
    destruct (isCenter rowIndex colIndex) eqn:E; [| reflexivity].
    apply isCenter_true in E. contradiction.
  - intros -> -> H00. rewrite addColorVertex_eq. unfold targetBuffer.
    rewrite Hget. cbn [mbind outcome_bind].
    change (isCenter centerRow centerCol) with true. cbv iota.
    unfold bufferAt in H00. cbn [fst snd] in H00.
    destruct (bgs !! 0%nat) as [bucket0 |] eqn:Hb0; [| destruct H00; discriminate].
    cbn in H00.
    rewrite (getBufferGeometry_Some bgs 0 0 bucket0); [reflexivity | exact Hb0 | exact H00].
Qed.

Lemma addColorVertex_no_group_witness :
  addColorVertex (initialBufferGeometries smallGrid) (Some 0) 2000 1000
    (mkVertex 0 0 0)
  = Thrown TypeError.
Proof.
  apply (addColorVertex_no_group (initialBufferGeometries smallGrid) 0 2000 1000
           (mkVertex 0 0 0) (replicate 9 emptyBufferGeometry)).
  - reflexivity.
  - reflexivity.
  - vm_compute. intros [H _]. discriminate H.
Defined.

(** ** The build pass as a whole *)

Lemma js_index_of_nat {A : Type} (l : list A) (i : nat) :
  js_index l (Z.of_nat i) = l !! i.
Proof.
  unfold js_index. destruct (Z.of_nat i <? 0) eqn:E.
  - apply Z.ltb_lt in E. lia.
  - rewrite Nat2Z.id. reflexivity.
Qed.

Lemma elem_of_upto (n : Z) (i : nat) : (i < Z.to_nat n)%nat -> Z.of_nat i ∈ upto n.
Proof.
  intros H. unfold upto. apply list_elem_of_fmap. exists i. split; [reflexivity |].
  apply elem_of_seq. lia.
Qed.

Lemma length_upto (n : Z) : length (upto n) = Z.to_nat n.
Proof. unfold upto. rewrite length_map, length_seq. reflexivity. Qed.

(** A loop raises as soon as one turn raises in every state it can meet. *)
Lemma forEach_raises {S A : Type} (P : S -> Prop) (body : S -> A -> outcome S)
    (l : list A) (a : A) :
  (forall s x s', P s -> body s x = Returned s' -> P s') ->
  a ∈ l ->
  (forall s, P s -> body s a = Thrown TypeError) ->
  forall s, P s -> forEach body l s = Thrown TypeError.
Proof.
  intros Hinv Hin Hraise.
  induction l as [| x l IH]; intros s Hs; [inversion Hin |].
  cbn. destruct (body s x) as [s1 | e] eqn:E; cbn.
  - apply elem_of_cons in Hin as [-> | Hin].
    + rewrite (Hraise s Hs) in E. discriminate E.
    + apply IH; [exact Hin | eapply Hinv; eassumption].
  - destruct e. reflexivity.
Qed.

Lemma forEach_measure {S A : Type} (m : S -> nat) (k : nat)
    (body : S -> A -> outcome S) (l : list A) :
  (forall s a s', body s a = Returned s' -> m s' = (m s + k)%nat) ->
  forall s s', forEach body l s = Returned s' -> m s' = (m s + k * length l)%nat.
Proof.
  intros Hbody. induction l as [| a l IH]; intros s s' Hrun; cbn in Hrun.
  - injection Hrun as <-. cbn. lia.
  - destruct (body s a) as [s1 |] eqn:E; [| discriminate Hrun].
    cbn in Hrun. rewrite (IH _ _ Hrun), (Hbody _ _ _ E). cbn [length]. lia.
Qed.

(** What every call of [addColorVertex] keeps, the build pass keeps. *)
Lemma addColorVertices_invariant (data : list (list ascii)) (n : Z)
    (P : list (list BufferGeometry) -> Prop) :
  (forall bgs c r k v bgs',
      P bgs -> addColorVertex bgs c r k v = Returned bgs' -> P bgs') ->
  forall bgs bgs', P bgs -> addColorVertices data n bgs = Returned bgs' -> P bgs'.
Proof.
  intros Hstep. unfold addColorVertices. apply forEach_invariant.
  intros s rowIndex s' Hs. revert s s' Hs. apply forEach_invariant.
  intros s colIndex s' Hs.
  destruct (js_index data rowIndex) as [row |]; cbn; [| discriminate].
  apply Hstep. exact Hs.
Qed.

Lemma addColorVertices_raises (data : list (list ascii)) (n : Z)
    (P : list (list BufferGeometry) -> Prop) (i j : nat) :
  (forall bgs c r k v bgs',
      P bgs -> addColorVertex bgs c r k v = Returned bgs' -> P bgs') ->
  (i < length data)%nat -> (j < Z.to_nat n)%nat ->
  (forall bgs, P bgs ->
     addColorVertex bgs (parseInt16 (cellAt data i j)) (Z.of_nat i) (Z.of_nat j)
       (cellVertex (nRows data) n (Z.of_nat i) (Z.of_nat j))
     = Thrown TypeError) ->
  forall bgs, P bgs -> addColorVertices data n bgs = Thrown TypeError.
Proof.
  intros Hstep Hi Hj Hraise. unfold addColorVertices.
  assert (Hinner : forall rowIndex s x s',
             P s ->
             (row ← defined (js_index data rowIndex);
              addColorVertex s (parseInt16 (js_index row x)) rowIndex x
                (cellVertex (nRows data) n rowIndex x)) = Returned s' ->
             P s').
  { intros rowIndex s x s' Hs.
    destruct (js_index data rowIndex) as [row |]; cbn; [| discriminate].
    apply Hstep. exact Hs. }
  apply (forEach_raises P _ _ (Z.of_nat i)).
  - intros s rowIndex s' Hs. revert s s' Hs. apply forEach_invariant.
    intros s x s'. apply Hinner.
  - apply elem_of_upto. unfold nRows. lia.
  - apply (forEach_raises P _ _ (Z.of_nat j)).
    + intros s x s'. apply Hinner.
    + apply elem_of_upto. exact Hj.
    + intros s Hs. rewrite js_index_of_nat.
      destruct (lookup_lt_is_Some_2 data i Hi) as [row Hrow].
      rewrite Hrow. cbn. rewrite js_index_of_nat.
      specialize (Hraise s Hs). unfold cellAt in Hraise.
      rewrite Hrow in Hraise. exact Hraise.
Qed.

Lemma nCols_Some (data : list (list ascii)) (row0 : list ascii) :
  data !! 0%nat = Some row0 -> nCols data = Returned (Z.of_nat (length row0)).
Proof.
  intros H. unfold nCols. change 0 with (Z.of_nat 0).
  rewrite js_index_of_nat, H. reflexivity.
Qed.

Lemma addColorVertex_raises_no_bucket (bgs : list (list BufferGeometry))
    (colorIndex : option Z) (rowIndex colIndex : Z) (vertex : Vertex) :
  js_index_num bgs colorIndex = None ->
  addColorVertex bgs colorIndex rowIndex colIndex vertex = Thrown TypeError.
Proof.
  intros H. rewrite addColorVertex_eq. unfold targetBuffer, getBufferGeometry.
  rewrite H. reflexivity.
Qed.

(** X7: an image with a cell, inside the rows and columns the builder
    visits, that is missing (a row shorter than the first) or is not a
    hexadecimal digit makes the constructor raise [TypeError]. *)
Theorem constructor_rejects_bad_cell {Color : Type} (data : list (list ascii))
    (threeColorsByIndex : list Color) (cam : Camera)
    (row0 : list ascii) (i j : nat) :
  data !! 0%nat = Some row0 ->
  (i < length data)%nat -> (j < length row0)%nat ->
  parseInt16 (cellAt data i j) = None ->
  constructor data threeColorsByIndex cam = Thrown TypeError.
Proof.
  intros H0 Hi Hj Hcell. unfold constructor.
  rewrite (nCols_Some data row0 H0). cbn [mbind outcome_bind].
  rewrite (addColorVertices_raises data (Z.of_nat (length row0)) (fun _ => True) i j);
    auto; try lia.
  intros bgs _. rewrite Hcell. apply addColorVertex_raises_no_bucket. reflexivity.
Qed.

Lemma constructor_rejects_bad_cell_witness :
  constructor [ ["0"; "1"]; ["1"] ]%char ([] : list unit) (mkCamera 50 30)
  = Thrown TypeError.
Proof.
  apply (constructor_rejects_bad_cell _ _ _ ["0"; "1"]%char 1%nat 1%nat);
    [reflexivity | cbn; lia | cbn; lia | reflexivity].
Defined.

(** *** The batches are never resized *)

Lemma modifyBuffer_shape (r : BufferRef) (f : BufferGeometry -> BufferGeometry)
    (bgs : list (list BufferGeometry)) :
  length <$> modifyBuffer r f bgs = length <$> bgs.
Proof.
  unfold modifyBuffer. apply list_eq. intros i. rewrite !list_lookup_fmap.
  destruct (decide (r.1 = i)) as [<- | Hne].
  - rewrite list_lookup_alter_eq. destruct (bgs !! r.1); cbn; [| reflexivity].
    rewrite length_alter. reflexivity.
  - rewrite list_lookup_alter_ne by exact Hne. reflexivity.
Qed.

Lemma addColorVertex_shape (bgs bgs' : list (list BufferGeometry))
    (colorIndex : option Z) (rowIndex colIndex : Z) (vertex : Vertex) :
  addColorVertex bgs colorIndex rowIndex colIndex vertex = Returned bgs' ->
  length <$> bgs' = length <$> bgs.
Proof.
  intros H. destruct (addColorVertex_Returned _ _ _ _ _ _ H) as (r & b & _ & _ & ->).
  apply modifyBuffer_shape.
Qed.

Lemma addColorVertices_shape (data : list (list ascii)) (n : Z)
    (bgs bgs' : list (list BufferGeometry)) :
  addColorVertices data n bgs = Returned bgs' ->
  length <$> bgs' = length <$> bgs.
Proof.
  apply (addColorVertices_invariant data n (fun s => length <$> s = length <$> bgs));
    [| reflexivity].
  intros s c r k v s' Hs Hrun. rewrite (addColorVertex_shape _ _ _ _ _ _ Hrun). exact Hs.
Qed.

Lemma initialBufferGeometries_shape (data : list (list ascii)) :
  length <$> initialBufferGeometries data
  = (fun kc => Z.to_nat (getNGroups kc.1)) <$> countsByColor data.
Proof.
  unfold initialBufferGeometries.
  induction (countsByColor data) as [| kc l IH]; [reflexivity |].
  cbn. rewrite length_replicate. f_equal. exact IH.
Qed.

Lemma length_concat_sum {A : Type} (ls : list (list A)) :
  length (concat ls) = sum_list (length <$> ls).
Proof.
  induction ls as [| l ls IH]; [reflexivity |].
  cbn. rewrite length_app, IH. reflexivity.
Qed.

Lemma length_createBufferGeometries {Color : Type} (threeColorsByIndex : list Color)
    (bgs : list (list BufferGeometry)) :
  length (createBufferGeometries threeColorsByIndex bgs)
  = sum_list (length <$> bgs).
Proof.
  unfold createBufferGeometries. rewrite length_concat_sum. f_equal.
  apply list_eq. intros i. rewrite !list_lookup_fmap, list_lookup_imap.
  destruct (bgs !! i); cbn; [| reflexivity].
  rewrite length_map. reflexivity.
Qed.

(** X8: the constructor never adds or removes a batch: the manager it
    returns has one bucket per colour counted in the image, of 9 batches for
    colour 0 and 3 for any other, and one mesh per batch, empty batches
    included. *)
Theorem constructor_batches {Color : Type} (data : list (list ascii))
    (threeColorsByIndex : list Color) (cam : Camera) (this : @PixelManager Color) :
  constructor data threeColorsByIndex cam = Returned this ->
  length <$> bufferGeometries this
  = (fun kc => Z.to_nat (getNGroups kc.1)) <$> countsByColor data /\
  length (pixelGroups this)
  = sum_list ((fun kc => Z.to_nat (getNGroups kc.1)) <$> countsByColor data).
Proof.
  unfold constructor. intros Hrun.
  destruct (nCols data) as [n |]; [| discriminate Hrun]. cbn in Hrun.
  destruct (addColorVertices data n (initialBufferGeometries data)) as [bgs |] eqn:E;
    [| discriminate Hrun].
  cbn in Hrun. injection Hrun as <-. cbn [bufferGeometries pixelGroups].
  pose proof (addColorVertices_shape _ _ _ _ E) as Hshape.
  rewrite initialBufferGeometries_shape in Hshape.
  split; [exact Hshape |].
  rewrite length_createBufferGeometries, Hshape. reflexivity.
Qed.

Lemma constructor_batches_witness :
  length (pixelGroups (smallManager (mkCamera 50 30))) = 12%nat.
Proof.
  exact (proj2 (constructor_batches smallGrid [] (mkCamera 50 30)
                  (smallManager (mkCamera 50 30)) eq_refl)).
Defined.

(** *** Six vertices per cell *)

Lemma sum_list_with_alter {A : Type} (m : A -> nat) (f : A -> A) (l : list A)
    (i : nat) (x : A) (k : nat) :
  l !! i = Some x -> m (f x) = (m x + k)%nat ->
  sum_list_with m (alter f i l) = (sum_list_with m l + k)%nat.
Proof.
  revert i. induction l as [| y l IH]; intros [| i] Hx Hk; cbn in *; try discriminate.
  - injection Hx as ->. lia.
  - rewrite (IH i Hx Hk). lia.
Qed.

Lemma vertexTotal_modifyBuffer (r : BufferRef) (f : BufferGeometry -> BufferGeometry)
    (bgs : list (list BufferGeometry)) (b : BufferGeometry) (k : nat) :
  bufferAt bgs r = Some b ->
  length (indices (f b)) = (length (indices b) + k)%nat ->
  vertexTotal (modifyBuffer r f bgs) = (vertexTotal bgs + k)%nat.
Proof.
  unfold bufferAt, vertexTotal, modifyBuffer. intros Hb Hk.
  destruct (bgs !! r.1) as [bucket |] eqn:Hbucket; [| discriminate Hb].
  cbn in Hb.
  apply (sum_list_with_alter _ _ _ _ bucket); [exact Hbucket |].
  apply (sum_list_with_alter _ _ _ _ b); assumption.
Qed.

Lemma addColorVertex_vertexTotal (bgs bgs' : list (list BufferGeometry))
    (colorIndex : option Z) (rowIndex colIndex : Z) (vertex : Vertex) :
  addColorVertex bgs colorIndex rowIndex colIndex vertex = Returned bgs' ->
  vertexTotal bgs' = (vertexTotal bgs + 6)%nat.
Proof.
  intros H. destruct (addColorVertex_Returned _ _ _ _ _ _ H) as (r & b & _ & Hb & ->).
  apply (vertexTotal_modifyBuffer r _ bgs b 6 Hb).
  unfold appendQuad, appendFace.
  cbn [vertices translate PlaneGeometry map indices].
  rewrite !length_app. cbn [length]. lia.
Qed.

Lemma addColorVertices_vertexTotal (data : list (list ascii)) (n : Z)
    (bgs bgs' : list (list BufferGeometry)) :
  addColorVertices data n bgs = Returned bgs' ->
  vertexTotal bgs' = (vertexTotal bgs + 6 * Z.to_nat n * length data)%nat.
Proof.
  unfold addColorVertices. intros Hrun.
  apply (forEach_measure vertexTotal (6 * Z.to_nat n)) in Hrun.
  - rewrite Hrun, length_upto. unfold nRows. rewrite Nat2Z.id. reflexivity.
  - intros s rowIndex s' Hinner.
    apply (forEach_measure vertexTotal 6) in Hinner.
    + rewrite Hinner, length_upto. reflexivity.
    + intros s0 colIndex s0'.
      destruct (js_index data rowIndex) as [row |]; cbn; [| discriminate].
      apply addColorVertex_vertexTotal.
Qed.

Lemma vertexTotal_initial (data : list (list ascii)) :
  vertexTotal (initialBufferGeometries data) = 0%nat.
Proof.
  unfold vertexTotal, initialBufferGeometries.
  induction (countsByColor data) as [| kc l IH]; [reflexivity |].
  cbn. rewrite IH.
  induction (Z.to_nat (getNGroups kc.1)) as [| m IHm]; [reflexivity |].
  cbn. exact IHm.
Qed.

(** X9: in the manager the constructor returns, the batches hold six
    vertices for every cell of the image, whatever the colours and the
    groups: 6 * rows * columns in all. *)
Theorem constructor_vertex_total {Color : Type} (data : list (list ascii))
    (threeColorsByIndex : list Color) (cam : Camera) (this : @PixelManager Color)
    (row0 : list ascii) :
  data !! 0%nat = Some row0 ->
  constructor data threeColorsByIndex cam = Returned this ->
  vertexTotal (bufferGeometries this) = (6 * length row0 * length data)%nat.
Proof.
  intros H0. unfold constructor. rewrite (nCols_Some data row0 H0).
  cbn [mbind outcome_bind]. intros Hrun.
  destruct (addColorVertices data (Z.of_nat (length row0))
              (initialBufferGeometries data)) as [bgs |] eqn:E;
    [| discriminate Hrun].
  cbn in Hrun. injection Hrun as <-. cbn [bufferGeometries].
  rewrite (addColorVertices_vertexTotal _ _ _ _ E), vertexTotal_initial, Nat2Z.id.
  reflexivity.
Qed.

Lemma constructor_vertex_total_witness :
  vertexTotal (bufferGeometries (smallManager (mkCamera 50 30))) = 24%nat.
Proof.
  exact (constructor_vertex_total smallGrid [] (mkCamera 50 30)
           (smallManager (mkCamera 50 30)) ["0"; "1"]%char eq_refl eq_refl).
Defined.

(** X10: an image with a cell whose colour index is not below the number of
    colours counted (an image that skips a palette index) makes the
    constructor raise: the buckets are numbered by position, not by
    colour. *)
Theorem constructor_rejects_missing_bucket {Color : Type} (data : list (list ascii))
    (threeColorsByIndex : list Color) (cam : Camera)
    (row0 : list ascii) (i j : nat) (ch : ascii) (c : Z) :
  data !! 0%nat = Some row0 ->
  (i < length data)%nat -> (j < length row0)%nat ->
  cellAt data i j = Some ch -> hexDigit ch = Some c ->
  (length (countsByColor data) <= Z.to_nat c)%nat ->
  constructor data threeColorsByIndex cam = Thrown TypeError.
Proof.
  intros H0 Hi Hj Hcell Hc Hlen. unfold constructor.
  rewrite (nCols_Some data row0 H0). cbn [mbind outcome_bind].
  rewrite (addColorVertices_raises data (Z.of_nat (length row0))
             (fun s => length s = length (countsByColor data)) i j);
    auto; try lia.
  - intros s k r q v s' Hs Hrun.
    pose proof (addColorVertex_shape _ _ _ _ _ _ Hrun) as Hshape.
    apply (f_equal length) in Hshape. rewrite !length_fmap in Hshape. lia.
  - intros s Hs. rewrite Hcell. cbn [parseInt16]. rewrite Hc.
    apply addColorVertex_raises_no_bucket. cbn.
    unfold js_index. destruct (c <? 0); [reflexivity |].
    apply lookup_ge_None. lia.
  - unfold initialBufferGeometries. apply length_map.
Qed.

Lemma constructor_rejects_missing_bucket_witness :
  constructor [ ["0"; "2"] ]%char ([] : list unit) (mkCamera 50 30)
  = Thrown TypeError.
Proof.
  apply (constructor_rejects_missing_bucket _ _ _ ["0"; "2"]%char 0%nat 1%nat
           "2"%char 2);
    [reflexivity | cbn; lia | cbn; lia | reflexivity | reflexivity | vm_compute; lia].
Defined.

(** ** The two updates *)

Section Updates.

Context {Color : Type}.
Variable tan : Q -> Q.
Variable PI : Q.
Variable innerHeight : positive.

Implicit Types (this : @PixelManager Color) (g : @Mesh Color) (cam : Camera).

Lemma clampedSize_resized cam cam' g :
  clampedSize tan PI innerHeight cam (resized tan PI innerHeight cam' g)
  = clampedSize tan PI innerHeight cam g.
Proof. reflexivity. Qed.

Lemma clampedSize_committed cam cam' g :
  clampedSize tan PI innerHeight cam (committed tan PI innerHeight cam' g)
  = clampedSize tan PI innerHeight cam g.
Proof. reflexivity. Qed.

(** X11: [getSize] returns for the indices below the number of batches and
    raises [TypeError] for every other index. *)
Theorem getSize_bounds this (i : nat) :
  ((i < length (pixelGroups this))%nat ->
   exists size, getSize tan PI innerHeight this i = Returned size) /\
  ((length (pixelGroups this) <= i)%nat ->
   getSize tan PI innerHeight this i = Thrown TypeError).
Proof.
  rewrite getSize_eq. split; intros H.
  - destruct (lookup_lt_is_Some_2 (pixelGroups this) i H) as [g ->].
    eexists. reflexivity.
  - rewrite (lookup_ge_None_2 _ _ H). reflexivity.
Qed.

(** X12: [updatePixelSize] returns; afterwards the size uniform of every
    batch holds what [getSize] answers for it and is flagged, and nothing
    else of the manager has changed: no buffer, no flag of a buffer, no
    other uniform. *)
Theorem updatePixelSize_effect this :
  exists this',
    updatePixelSize tan PI innerHeight this = Returned this' /\
    bufferGeometries this' = bufferGeometries this /\
    camera this' = camera this /\
    length (pixelGroups this') = length (pixelGroups this) /\
    forall (i : nat) g, pixelGroups this !! i = Some g ->
      exists g',
        pixelGroups this' !! i = Some g' /\
        getSize tan PI innerHeight this i = Returned (value (uniformSize g')) /\
        needsUpdate (uniformSize g') = Some true /\
        positionArray g' = positionArray g /\
        positionNeedsUpdate g' = positionNeedsUpdate g /\
        centerArray g' = centerArray g /\
        vertexIndexArray g' = vertexIndexArray g /\
        position_z g' = position_z g /\
        uniformColor g' = uniformColor g /\
        uniformDepthCompensation g' = uniformDepthCompensation g.
Proof.
  eexists. split; [apply updatePixelSize_eq |].
  cbn [bufferGeometries camera pixelGroups setPixelGroups].
  repeat split; [apply length_fmap |].
  intros i g Hg. exists (resized tan PI innerHeight (camera this) g).
  rewrite list_lookup_fmap, Hg. split; [reflexivity |].
  rewrite (getSize_Some tan PI innerHeight this i g Hg).
  repeat split.
Qed.

(** X13: [updatePixelSize] is idempotent: a second call returns the manager
    the first one returned. *)
Theorem updatePixelSize_idempotent this :
  updatePixelSize tan PI innerHeight this ≫= updatePixelSize tan PI innerHeight
  = updatePixelSize tan PI innerHeight this.
Proof.
  rewrite updatePixelSize_eq. cbn [mbind outcome_bind].
  rewrite updatePixelSize_eq. cbn [pixelGroups camera setPixelGroups].
  unfold setPixelGroups. cbn [this_nRows this_nCols bufferGeometries camera].
  do 2 f_equal. rewrite <- list_fmap_compose.
  apply list_fmap_ext. intros i g _. reflexivity.
Qed.

(** X14: the two updates commute: the uniform-only update and the geometry
    commit give the same manager in either order. *)
Theorem updates_commute this :
  updatePixelSize tan PI innerHeight this ≫= updateBufferGeometry tan PI innerHeight
  = updateBufferGeometry tan PI innerHeight this ≫= updatePixelSize tan PI innerHeight.
Proof.
  rewrite updatePixelSize_eq, updateBufferGeometry_eq. cbn [mbind outcome_bind].
  rewrite updatePixelSize_eq, updateBufferGeometry_eq.
  cbn [pixelGroups camera setPixelGroups].
  unfold setPixelGroups. cbn [this_nRows this_nCols bufferGeometries camera].
  do 2 f_equal. rewrite <- !list_fmap_compose.
  apply list_fmap_ext. intros i g _. reflexivity.
Qed.

(** *** Vertices without a corner *)

Lemma cornerPosition_unknown (size : Q) (t : option Z) (cx cy : option number) :
  (forall z, t = Some z -> ~ (0 <= z <= 3)) ->
  cornerPosition size t cx cy = (None, None).
Proof.
  intros H. destruct t as [z |]; [| reflexivity].
  destruct z as [| [[| |] | [| |] |] | p]; try reflexivity;
    exfalso; apply (H _ eq_refl); lia.
Qed.

(** X15: a vertex whose corner tag is absent or is not 0, 1, 2 or 3 has its
    x and its y overwritten with [NaN] by [updateBufferGeometry]. *)
Theorem updateBufferGeometry_unknown_tag this (i : nat) g (j : nat) :
  pixelGroups this !! i = Some g ->
  (3 * j + 1 < length (positionArray g))%nat ->
  (forall t, vertexIndexArray g !! j = Some t -> ~ (0 <= t <= 3)) ->
  exists this' g',
    updateBufferGeometry tan PI innerHeight this = Returned this' /\
    pixelGroups this' !! i = Some g' /\
    positionArray g' !! (3 * j)%nat = Some NaN /\
    positionArray g' !! (3 * j + 1)%nat = Some NaN.
Proof.
  intros Hg Hlen Ht.
  replace (3 * j)%nat with (j * 3 + 0)%nat in * by lia.
  replace (j * 3 + 0 + 1)%nat with (j * 3 + 1)%nat in * by lia.
  eexists _, (committed tan PI innerHeight (camera this) g).
  split; [apply updateBufferGeometry_eq |].
  split; [cbn [pixelGroups setPixelGroups]; rewrite list_lookup_fmap, Hg; reflexivity |].
  unfold committed, setPosition. cbn [positionArray].
  rewrite rewritePositions_x, rewritePositions_y by lia.
  unfold cornerOf, cornerAt. rewrite cornerPosition_unknown by exact Ht.
  split; reflexivity.
Qed.

End Updates.

(** *** The geometry commit, repeated *)

Section Commit.

Context {Color : Type}.
Variable tan : Q -> Q.
Variable PI : Q.
Variable innerHeight : positive.

Implicit Types (this : @PixelManager Color) (g : @Mesh Color).

Lemma rewritePositions_again (size : Q) g (dirty : bool) :
  rewritePositions size (setPosition g (rewritePositions size g) dirty)
  = rewritePositions size g.
Proof.
  set (g1 := setPosition g (rewritePositions size g) dirty).
  assert (Hlen1 : length (positionArray g1) = length (positionArray g))
    by apply rewritePositions_length.
  apply list_eq. intros k.
  pose proof (Nat.div_mod_eq k 3) as Hk.
  pose proof (Nat.mod_upper_bound k 3 ltac:(lia)) as Hr.
  set (j := (k / 3)%nat) in *. set (r := (k mod 3)%nat) in *.
  destruct (decide (k < length (positionArray g))%nat) as [Hin | Hout].
  - destruct r as [| [| [| r']]] eqn:Er; try lia.
    + replace k with (j * 3 + 0)%nat by lia.
      rewrite (rewritePositions_x size g1 j) by lia.
      rewrite (rewritePositions_x size g j) by lia. reflexivity.
    + replace k with (j * 3 + 1)%nat by lia.
      rewrite (rewritePositions_y size g1 j) by lia.
      rewrite (rewritePositions_y size g j) by lia. reflexivity.
    + replace k with (j * 3 + 2)%nat by lia.
      rewrite (rewritePositions_z size g1 j). reflexivity.
  - rewrite !lookup_ge_None_2; [reflexivity | |];
      rewrite ?rewritePositions_length; lia.
Qed.

Lemma committed_again (cam : Camera) g :
  committed tan PI innerHeight cam (committed tan PI innerHeight cam g)
  = committed tan PI innerHeight cam g.
Proof.
  unfold committed at 1. rewrite clampedSize_committed.
  unfold committed. rewrite rewritePositions_again. reflexivity.
Qed.

(** X16: [updateBufferGeometry] is idempotent: committing the geometry a
    second time, with the camera where it was, returns the manager the first
    commit returned. *)
Theorem updateBufferGeometry_idempotent this :
  updateBufferGeometry tan PI innerHeight this
    ≫= updateBufferGeometry tan PI innerHeight
  = updateBufferGeometry tan PI innerHeight this.
Proof.
  rewrite updateBufferGeometry_eq. cbn [mbind outcome_bind].
  rewrite updateBufferGeometry_eq. cbn [pixelGroups camera setPixelGroups].
  unfold setPixelGroups. cbn [this_nRows this_nCols bufferGeometries camera].
  do 2 f_equal. rewrite <- list_fmap_compose.
  apply list_fmap_ext. intros i g _. apply committed_again.
Qed.

End Commit.

(** *** The clamp against the viewport and the zoom *)

Lemma maxPixelFraction_antitone (h1 h2 : positive) :
  (h1 <= h2)%positive ->
  (MAX_PIXEL_SIZE_PX / inject_Z (Zpos h2) <= MAX_PIXEL_SIZE_PX / inject_Z (Zpos h1))%Q.
Proof.
  intros H. unfold MAX_PIXEL_SIZE_PX, Qle, Qdiv, Qmult, Qinv, inject_Z. cbn.
  nia.
Qed.

(** X17: the taller the viewport, the smaller the size [getSize] returns,
    when the world height of the batch is not negative. *)
Theorem getSize_antitone_viewport {Color : Type} (tan : Q -> Q) (PI : Q)
    (h1 h2 : positive) (this : @PixelManager Color) (i : nat) (g : @Mesh Color) :
  pixelGroups this !! i = Some g ->
  (h1 <= h2)%positive ->
  (0 <= worldHeight tan PI (camera this) g)%Q ->
  exists s1 s2,
    getSize tan PI h1 this i = Returned s1 /\
    getSize tan PI h2 this i = Returned s2 /\
    (s2 <= s1)%Q.
Proof.
  intros Hg Hh Hw. eexists _, _.
  split; [apply getSize_Some; exact Hg |].
  split; [apply getSize_Some; exact Hg |].
  unfold clampedSize. apply Q.min_le_compat_l.
  apply Qmult_le_compat_r; [apply maxPixelFraction_antitone; exact Hh | exact Hw].
Qed.

Lemma getSize_antitone_viewport_witness :
  exists s1 s2,
    getSize tanStub piStub 600 (smallManager (mkCamera 50 30)) 0 = Returned s1 /\
    getSize tanStub piStub 900 (smallManager (mkCamera 50 30)) 0 = Returned s2 /\
    (s2 <= s1)%Q.
Proof.
  apply (getSize_antitone_viewport tanStub piStub 600 900
           (smallManager (mkCamera 50 30)) 0 (smallMesh (mkCamera 50 30)));
    [reflexivity | vm_compute; discriminate | vm_compute; discriminate].
Defined.

(** X18: moving the camera away, everything else equal, never makes the
    size [getSize] returns smaller, when the tangent of half the field of
    view is not negative. *)
Theorem getSize_monotone_zoom {Color : Type} (tan : Q -> Q) (PI : Q)
    (innerHeight : positive) (this1 this2 : @PixelManager Color) (i : nat)
    (g : @Mesh Color) :
  pixelGroups this1 !! i = Some g ->
  pixelGroups this2 !! i = Some g ->
  fov (camera this1) = fov (camera this2) ->
  (camera_z (camera this1) <= camera_z (camera this2))%Q ->
  (0 <= tan (fov (camera this1) * PI / 180 / 2))%Q ->
  exists s1 s2,
    getSize tan PI innerHeight this1 i = Returned s1 /\
    getSize tan PI innerHeight this2 i = Returned s2 /\
    (s1 <= s2)%Q.
Proof.
  intros Hg1 Hg2 Hfov Hz Htan. eexists _, _.
  split; [apply getSize_Some; exact Hg1 |].
  split; [apply getSize_Some; exact Hg2 |].
  unfold clampedSize. apply Q.min_le_compat_l.
  rewrite !(Qmult_comm (MAX_PIXEL_SIZE_PX / inject_Z (Z.pos innerHeight))).
  apply Qmult_le_compat_r;
    [| apply Qlt_le_weak; apply (maxPixelFraction_pos innerHeight)].
  unfold worldHeight. rewrite <- Hfov.
  set (t := tan (fov (camera this1) * PI / 180 / 2)%Q) in *.
  rewrite !(Qmult_comm (2 * t)).
  apply Qmult_le_compat_r.
  - unfold Qminus. apply Qplus_le_compat; [exact Hz | apply Qle_refl].
  - apply Qmult_le_0_compat; [discriminate | exact Htan].
Qed.

Lemma getSize_monotone_zoom_witness :
  exists s1 s2,
    getSize tanStub piStub 900 (smallManager (mkCamera 50 30)) 0 = Returned s1 /\
    getSize tanStub piStub 900 (smallManager (mkCamera 50 100)) 0 = Returned s2 /\
    (s1 <= s2)%Q.
Proof.
  apply (getSize_monotone_zoom tanStub piStub 900
           (smallManager (mkCamera 50 30)) (smallManager (mkCamera 50 100)) 0
           (smallMesh (mkCamera 50 30)));
    [reflexivity | reflexivity | reflexivity
     | vm_compute; discriminate | vm_compute; discriminate].
Defined.

Lemma getSize_bounds_witness :
  getSize tanStub piStub 900 (smallManager (mkCamera 50 30)) 12 = Thrown TypeError.
Proof.
  apply (getSize_bounds tanStub piStub 900 (smallManager (mkCamera 50 30)) 12).
  vm_compute. lia.
Defined.

Lemma updateBufferGeometry_unknown_tag_witness :
  exists this' g',
    updateBufferGeometry tanStub piStub 900 strayManager = Returned this' /\
    pixelGroups this' !! 0%nat = Some g' /\
    positionArray g' !! 0%nat = Some NaN /\
    positionArray g' !! 1%nat = Some NaN.
Proof.
  apply (updateBufferGeometry_unknown_tag tanStub piStub 900 strayManager 0
           (mkMesh 0 [Num 0; Num 0; Num 0] false [Num 0; Num 0; Num 0] [7] None
                   (mkUniform pixelSize None) 1) 0).
  - reflexivity.
  - cbn. lia.
  - intros t [= <-]. lia.
Defined.

(** ** The meshes of a new manager *)

Lemma elem_of_concat {A : Type} (x : A) (ls : list (list A)) :
  x ∈ concat ls <-> exists l, l ∈ ls /\ x ∈ l.
Proof.
  induction ls as [| l ls IH]; cbn.
  - split; [intros H; inversion H | intros (l & H & _); inversion H].
  - rewrite elem_of_app, IH. split.
    + intros [H | (l' & H1 & H2)].
      * exists l. split; [left | exact H].
      * exists l'. split; [right; exact H1 | exact H2].
    + intros (l' & H1 & H2). apply elem_of_cons in H1 as [-> | H1].
      * left. exact H2.
      * right. exists l'. split; assumption.
Qed.

(** A mesh of [createBufferGeometries] comes from one batch. *)
Lemma elem_of_createBufferGeometries {Color : Type} (threeColorsByIndex : list Color)
    (bgs : list (list BufferGeometry)) (g : @Mesh Color) :
  g ∈ createBufferGeometries threeColorsByIndex bgs ->
  exists (i : nat) bucket b,
    bucket ∈ bgs /\ b ∈ bucket /\ g = newMesh threeColorsByIndex i b.
Proof.
  unfold createBufferGeometries. intros H.
  apply elem_of_concat in H as (l & Hl & Hg).
  apply elem_of_lookup_imap in Hl as (i & bucket & -> & Hbucket).
  apply list_elem_of_fmap in Hg as (b & -> & Hb).
  exists i, bucket, b. split; [| split; [exact Hb | reflexivity]].
  apply list_elem_of_lookup. exists i. exact Hbucket.
Qed.

Lemma constructor_Returned {Color : Type} (data : list (list ascii))
    (threeColorsByIndex : list Color) (cam : Camera) (this : @PixelManager Color) :
  constructor data threeColorsByIndex cam = Returned this ->
  exists n bgs,
    nCols data = Returned n /\
    addColorVertices data n (initialBufferGeometries data) = Returned bgs /\
    this = mkPixelManager (nRows data) n bgs
             (createBufferGeometries threeColorsByIndex bgs) cam.
Proof.
  unfold constructor. intros Hrun.
  destruct (nCols data) as [n |]; [| discriminate Hrun]. cbn in Hrun.
  destruct (addColorVertices data n (initialBufferGeometries data)) as [bgs |] eqn:E;
    [| discriminate Hrun].
  cbn in Hrun. injection Hrun as <-. exists n, bgs. repeat split. exact E.
Qed.

(** What the build pass keeps in every batch. *)
Lemma addColorVertices_Forall (data : list (list ascii)) (n : Z)
    (P : BufferGeometry -> Prop) :
  P emptyBufferGeometry ->
  (forall vertex b, P b -> P (appendQuad vertex b)) ->
  forall bgs, addColorVertices data n (initialBufferGeometries data) = Returned bgs ->
  Forall (Forall P) bgs.
Proof.
  intros Hempty Hquad bgs.
  apply (addColorVertices_invariant data n (fun s => Forall (Forall P) s)).
  - intros s c r k v s' Hs Hrun.
    destruct (addColorVertex_Returned _ _ _ _ _ _ Hrun) as (ref & b & _ & _ & ->).
    unfold modifyBuffer. apply Forall_alter; [exact Hs |].
    intros bucket _ Hbucket. apply Forall_alter; [exact Hbucket |].
    intros b0 _. apply Hquad.
  - unfold initialBufferGeometries. apply Forall_fmap, Forall_forall.
    intros kc _. cbn. apply Forall_replicate, Hempty.
Qed.

Lemma tags_appendQuad (vertex : Vertex) (b : BufferGeometry) :
  Forall (fun t => 0 <= t <= 3) (indices b) ->
  Forall (fun t => 0 <= t <= 3) (indices (appendQuad vertex b)).
Proof.
  intros H. unfold appendQuad, appendFace.
  cbn [vertices translate PlaneGeometry map indices fa fb fc].
  rewrite !Forall_app. split; [split; [exact H |] |];
    repeat (apply List.Forall_cons; [lia |]); apply List.Forall_nil.
Qed.

Lemma ToUint16_tag (t : Z) : 0 <= t <= 3 -> ToUint16 t = t.
Proof. intros H. unfold ToUint16. apply Z.mod_small. lia. Qed.

(** X19: every mesh of the manager the constructor returns is fresh: its
    position and centre arrays have the same length, three floats for each
    corner tag, every tag is 0, 1, 2 or 3, no buffer is flagged, the depth is
    0, the size uniform holds the nominal pixel size and has no flag. *)
Theorem constructor_fresh_meshes {Color : Type} (data : list (list ascii))
    (threeColorsByIndex : list Color) (cam : Camera) (this : @PixelManager Color)
    (g : @Mesh Color) :
  constructor data threeColorsByIndex cam = Returned this ->
  g ∈ pixelGroups this ->
  freshMesh g.
Proof.
  intros Hrun Hg.
  destruct (constructor_Returned _ _ _ _ Hrun) as (n & bgs & _ & Hbuild & ->).
  cbn [pixelGroups] in Hg.
  apply elem_of_createBufferGeometries in Hg as (i & bucket & b & Hbucket & Hb & ->).
  pose proof (addColorVertices_Forall data n lockstep lockstep_empty
                lockstep_appendQuad bgs Hbuild) as Hlock.
  pose proof (addColorVertices_Forall data n
                (fun b => Forall (fun t => 0 <= t <= 3) (indices b))
                (Forall_nil_2 _) tags_appendQuad bgs Hbuild) as Htags.
  rewrite Forall_forall in Hlock, Htags.
  specialize (Hlock bucket Hbucket). specialize (Htags bucket Hbucket).
  rewrite Forall_forall in Hlock, Htags.
  destruct (Hlock b Hb) as (L1 & L2 & _). specialize (Htags b Hb).
  unfold freshMesh, newMesh.
  cbn [positionArray centerArray vertexIndexArray positionNeedsUpdate position_z
       uniformSize uniformDepthCompensation].
  rewrite !length_map. repeat split; try assumption.
  apply Forall_fmap. eapply Forall_impl; [exact Htags |].
  intros t Ht. cbn. rewrite ToUint16_tag by exact Ht. exact Ht.
Qed.

Lemma constructor_fresh_meshes_witness :
  freshMesh (smallMesh (mkCamera 50 30)).
Proof.
  apply (constructor_fresh_meshes smallGrid [] (mkCamera 50 30)
           (smallManager (mkCamera 50 30))).
  - reflexivity.
  - apply list_elem_of_lookup. exists 0%nat. reflexivity.
Defined.

(** ** The built geometry and the corner table *)







Section Nominal.

Context {Color : Type}.
Variable threeColorsByIndex : list Color.



End Nominal.


(** ** The group the hash never selects *)

Lemma elem_of_upto_inv (n a : Z) : a ∈ upto n -> 0 <= a < n.
Proof.
  unfold upto. intros H. apply list_elem_of_fmap in H as (i & -> & Hi).
  apply elem_of_seq in Hi. lia.
Qed.

Lemma forEach_invariant_elem {S A : Type} (P : S -> Prop) (body : S -> A -> outcome S)
    (l : list A) :
  (forall s a s', a ∈ l -> P s -> body s a = Returned s' -> P s') ->
  forall s s', P s -> forEach body l s = Returned s' -> P s'.
Proof.
  induction l as [| a l IH]; intros Hbody s s' Hs Hrun; cbn in Hrun.
  - injection Hrun as <-. exact Hs.
  - destruct (body s a) as [s1 |] eqn:E; [| discriminate Hrun].
    cbn in Hrun. apply (IH) with (s := s1); [| | exact Hrun].
    + intros s0 x s0' Hx. apply Hbody. apply list_elem_of_further. exact Hx.
    + eapply Hbody; [apply list_elem_of_here | exact Hs | exact E].
Qed.

(** The build pass keeps what every call of [addColorVertex] keeps for the
    cells of the image. *)
Lemma addColorVertices_invariant_cells (data : list (list ascii)) (n : Z)
    (P : list (list BufferGeometry) -> Prop) :
  (forall bgs c r k v bgs',
      0 <= r < nRows data -> 0 <= k < n ->
      P bgs -> addColorVertex bgs c r k v = Returned bgs' -> P bgs') ->
  forall bgs bgs', P bgs -> addColorVertices data n bgs = Returned bgs' -> P bgs'.
Proof.
  intros Hstep. unfold addColorVertices. apply forEach_invariant_elem.
  intros s rowIndex s' Hr Hs. revert s s' Hs. apply forEach_invariant_elem.
  intros s colIndex s' Hk Hs.
  destruct (js_index data rowIndex) as [row |]; cbn; [| discriminate].
  apply Hstep; [apply elem_of_upto_inv; exact Hr
               | apply elem_of_upto_inv; exact Hk | exact Hs].
Qed.

Lemma calc_monotone (r k r' k' : Z) :
  0 <= r <= r' -> 0 <= k <= k' -> calc r k <= calc r' k'.
Proof.
  intros Hr Hk. unfold calc.
  assert (H2 : r * r <= r' * r') by (apply Z.mul_le_mono_nonneg; lia).
  assert (H3 : r * r * k <= r' * r' * k') by (apply Z.mul_le_mono_nonneg; nia).
  lia.
Qed.

Lemma getBufferGeometry_ref (bgs : list (list BufferGeometry)) (c g : Z)
    (r : BufferRef) :
  getBufferGeometry bgs (Some c) g = Returned (Some r) ->
  r = (Z.to_nat c, Z.to_nat g) /\ 0 <= c /\ 0 <= g.
Proof.
  unfold getBufferGeometry. cbn.
  destruct (js_index bgs c) as [bucket |] eqn:Hb; cbn; [| discriminate].
  destruct (js_index bucket g) as [b |] eqn:Hg; cbn; [| discriminate].
  intros [= <-]. split; [reflexivity |].
  unfold js_index in Hb, Hg.
  destruct (c <? 0) eqn:Ec; [discriminate Hb |].
  destruct (g <? 0) eqn:Eg; [discriminate Hg |].
  apply Z.ltb_ge in Ec, Eg. lia.
Qed.

(** The place a returning call writes to is never the last group of a
    colour. *)
Lemma targetBuffer_not_last (bgs : list (list BufferGeometry))
    (colorIndex : option Z) (rowIndex colIndex : Z) (r : BufferRef) (c' : nat) :
  0 <= rowIndex -> 0 <= colIndex -> calc rowIndex colIndex < 2 ^ 31 ->
  targetBuffer bgs colorIndex rowIndex colIndex = Returned (Some r) ->
  r <> (c', Z.to_nat (getNGroups (Some (Z.of_nat c')) - 1)).
Proof.
  intros Hr Hk Hcalc. unfold targetBuffer.
  destruct (getBufferGeometry bgs colorIndex
              (groupNumber colorIndex rowIndex colIndex)) as [t |] eqn:E;
    cbn; [| discriminate].
  destruct (isCenter rowIndex colIndex).
  - intros H. apply getBufferGeometry_ref in H as (-> & _ & _).
    intros [= <- H]. vm_compute in H. discriminate H.
  - intros [= ->]. destruct colorIndex as [c |].
    + apply getBufferGeometry_ref in E as (-> & Hc & Hg).
      pose proof (groupNumber_below_divisor (Some c) _ _ Hr Hk Hcalc) as Hlt.
      intros [= <- H]. rewrite Z2Nat.id in H by exact Hc.
      unfold getNGroups, N_GROUPS in Hlt, H.
      destruct c as [| p | p]; apply Z2Nat.inj in H; lia.
    + unfold getBufferGeometry in E. cbn in E. discriminate E.
Qed.

(** X21: since the hash is reduced modulo the number of groups minus one,
    the last batch of every bucket (the ninth for colour 0, the third for
    any other) is still empty in the manager the constructor returns, for an
    image small enough that the hash stays below 2^31. *)
Theorem constructor_last_group_empty {Color : Type} (data : list (list ascii))
    (threeColorsByIndex : list Color) (cam : Camera) (this : @PixelManager Color)
    (row0 : list ascii) (c' : nat) (b : BufferGeometry) :
  data !! 0%nat = Some row0 ->
  calc (Z.of_nat (length data)) (Z.of_nat (length row0)) < 2 ^ 31 ->
  constructor data threeColorsByIndex cam = Returned this ->
  bufferAt (bufferGeometries this)
           (c', Z.to_nat (getNGroups (Some (Z.of_nat c')) - 1)) = Some b ->
  b = emptyBufferGeometry.
Proof.
  intros H0 Hcalc Hrun.
  destruct (constructor_Returned _ _ _ _ Hrun) as (n & bgs & Hn & Hbuild & ->).
  rewrite (nCols_Some data row0 H0) in Hn. injection Hn as <-.
  cbn [bufferGeometries]. revert b.
  set (P := fun s : list (list BufferGeometry) => forall b,
              bufferAt s (c', Z.to_nat (getNGroups (Some (Z.of_nat c')) - 1)) = Some b ->
              b = emptyBufferGeometry).
  change (P bgs).
  eapply (addColorVertices_invariant_cells data _ P); [| | exact Hbuild]; unfold P.
  - intros s c r k v s' Hr Hk Hs Hstep b.
    destruct (addColorVertex_Returned _ _ _ _ _ _ Hstep) as (ref & b0 & Ht & _ & ->).
    rewrite bufferAt_modifyBuffer_ne; [apply Hs |].
    apply (targetBuffer_not_last s c r k ref c'); try lia; [| exact Ht].
    eapply Z.le_lt_trans; [| exact Hcalc].
    apply calc_monotone; unfold nRows in Hr; lia.
  - intros b Hb. unfold bufferAt, initialBufferGeometries in Hb. cbn [fst snd] in Hb.
    rewrite list_lookup_fmap in Hb.
    destruct (countsByColor data !! c') as [kc |]; cbn in Hb; [| discriminate Hb].
    apply lookup_replicate in Hb as [-> _]. reflexivity.
Qed.

Lemma constructor_last_group_empty_witness :
  bufferAt (bufferGeometries (smallManager (mkCamera 50 30))) (0%nat, 8%nat)
  = Some emptyBufferGeometry.
Proof.
  assert (H : exists b, bufferAt (bufferGeometries (smallManager (mkCamera 50 30)))
                          (0%nat, 8%nat) = Some b)
    by (eexists; reflexivity).
  destruct H as [b Hb]. rewrite Hb. f_equal.
  exact (constructor_last_group_empty smallGrid [] (mkCamera 50 30)
           (smallManager (mkCamera 50 30)) ["0"; "1"]%char 0%nat b
           eq_refl eq_refl eq_refl Hb).
Defined.

(** ** When the constructor returns *)

Lemma forEach_returns {S A : Type} (P : S -> Prop) (body : S -> A -> outcome S)
    (l : list A) :
  (forall s a, a ∈ l -> P s -> exists s', body s a = Returned s' /\ P s') ->
  forall s, P s -> exists s', forEach body l s = Returned s' /\ P s'.
Proof.
  induction l as [| a l IH]; intros Hbody s Hs; cbn.
  - exists s. split; [reflexivity | exact Hs].
  - destruct (Hbody s a (list_elem_of_here _ _) Hs) as (s1 & -> & Hs1). cbn.
    apply IH; [| exact Hs1].
    intros s0 x Hx. apply Hbody. apply list_elem_of_further. exact Hx.
Qed.

Lemma keyEq_eq (k k' : option Z) : keyEq k k' = true -> k = k'.
Proof.
  destruct k as [a |], k' as [b |]; cbn; try discriminate; [| reflexivity].
  intros H. apply Z.eqb_eq in H. congruence.
Qed.

Lemma countColor_key_new (k : option Z) (counts : list (option Z * nat)) :
  k ∈ fst <$> countColor k counts.
Proof.
  induction counts as [| [k' n] rest IH]; cbn; [apply list_elem_of_here |].
  destruct (keyEq k k') eqn:E.
  - apply keyEq_eq in E as ->. apply list_elem_of_here.
  - destruct (keyBefore k k'); cbn;
      [apply list_elem_of_here | apply list_elem_of_further, IH].
Qed.

Lemma countColor_key_old (k k0 : option Z) (counts : list (option Z * nat)) :
  k0 ∈ fst <$> counts -> k0 ∈ fst <$> countColor k counts.
Proof.
  induction counts as [| [k' n] rest IH]; cbn; intros H; [inversion H |].
  destruct (keyEq k k') eqn:E; [exact H |].
  destruct (keyBefore k k'); cbn; [apply list_elem_of_further; exact H |].
  apply elem_of_cons in H as [-> | H];
    [apply list_elem_of_here | apply list_elem_of_further, IH, H].
Qed.

Lemma countRow_key_old (row : list ascii) (k0 : option Z)
    (counts : list (option Z * nat)) :
  k0 ∈ fst <$> counts ->
  k0 ∈ fst <$> foldl (fun counts color => countColor (parseInt16 (Some color)) counts)
                     counts row.
Proof.
  revert counts. induction row as [| ch row IH]; intros counts H; cbn; [exact H |].
  apply IH, countColor_key_old, H.
Qed.

Lemma countRow_key_new (row : list ascii) (ch : ascii)
    (counts : list (option Z * nat)) :
  ch ∈ row ->
  hexDigit ch ∈ fst <$> foldl (fun counts color =>
                                 countColor (parseInt16 (Some color)) counts)
                              counts row.
Proof.
  revert counts. induction row as [| x row IH]; intros counts H; [inversion H |].
  cbn [foldl]. apply elem_of_cons in H as [<- | H].
  - apply countRow_key_old. apply countColor_key_new.
  - apply IH, H.
Qed.

(** Every cell of the image has its colour among the keys of
    [countsByColor]. *)
Lemma countsByColor_key (data : list (list ascii)) (i j : nat) (ch : ascii) :
  cellAt data i j = Some ch -> hexDigit ch ∈ fst <$> countsByColor data.
Proof.
  unfold cellAt, countsByColor. generalize (@nil (option Z * nat)).
  revert i. induction data as [| row data IH]; intros i counts H;
    [destruct i; discriminate H |].
  cbn [foldl]. destruct i as [| i]; cbn in H.
  - assert (Hk : hexDigit ch ∈ fst <$> foldl
                   (fun counts color => countColor (parseInt16 (Some color)) counts)
                   counts row)
      by (apply countRow_key_new; eapply list_elem_of_lookup_2; exact H).
    revert Hk. generalize (foldl
                   (fun counts color => countColor (parseInt16 (Some color)) counts)
                   counts row).
    clear. induction data as [| row' data IH']; intros counts Hk; [exact Hk |].
    cbn [foldl]. apply IH', countRow_key_old, Hk.
  - apply (IH i). exact H.
Qed.

Lemma sameShape_bucket (data : list (list ascii)) (K : Z)
    (s : list (list BufferGeometry)) (c : Z) :
  fst <$> countsByColor data = Some <$> seqZ 0 K ->
  sameShape data s -> 0 <= c < K ->
  exists bucket,
    js_index s c = Some bucket /\
    length bucket = Z.to_nat (getNGroups (Some c)).
Proof.
  intros Hkeys Hs Hc. unfold sameShape in Hs.
  rewrite initialBufferGeometries_shape in Hs.
  assert (Hkey : (fst <$> countsByColor data) !! Z.to_nat c = Some (Some c)).
  { rewrite Hkeys, list_lookup_fmap, lookup_seqZ_lt by (clear - Hc; lia).
    cbn. do 2 f_equal. clear - Hc. lia. }
  rewrite list_lookup_fmap in Hkey.
  destruct (countsByColor data !! Z.to_nat c) as [kc |] eqn:Ekc; [| discriminate Hkey].
  cbn in Hkey. injection Hkey as Hfst.
  assert (Hlen : (length <$> s) !! Z.to_nat c = Some (Z.to_nat (getNGroups (Some c)))).
  { rewrite Hs, list_lookup_fmap, Ekc. cbn. rewrite Hfst. reflexivity. }
  rewrite list_lookup_fmap in Hlen.
  destruct (s !! Z.to_nat c) as [bucket |] eqn:Eb; [| discriminate Hlen].
  cbn in Hlen. injection Hlen as Hlen.
  exists bucket. split; [| exact Hlen].
  unfold js_index. destruct (c <? 0) eqn:E; [| exact Eb].
  apply Z.ltb_lt in E. clear - E Hc. lia.
Qed.

Lemma sameShape_getBufferGeometry (data : list (list ascii)) (K : Z)
    (s : list (list BufferGeometry)) (c g : Z) :
  fst <$> countsByColor data = Some <$> seqZ 0 K ->
  sameShape data s -> 0 <= c < K -> 0 <= g < getNGroups (Some c) ->
  getBufferGeometry s (Some c) g = Returned (Some (Z.to_nat c, Z.to_nat g)).
Proof.
  intros Hkeys Hs Hc Hg.
  destruct (sameShape_bucket data K s c Hkeys Hs Hc) as (bucket & Hb & Hlen).
  apply (getBufferGeometry_Some s c g bucket Hb).
  apply js_index_Some. lia.
Qed.

Lemma sameShape_addColorVertex (data : list (list ascii)) (K : Z)
    (s : list (list BufferGeometry)) (c r k : Z) (v : Vertex) :
  fst <$> countsByColor data = Some <$> seqZ 0 K ->
  sameShape data s -> 0 <= c < K ->
  0 <= r -> 0 <= k -> calc r k < 2 ^ 31 ->
  exists s', addColorVertex s (Some c) r k v = Returned s' /\ sameShape data s'.
Proof.
  intros Hkeys Hs Hc Hr Hk Hcalc.
  pose proof (groupNumber_below_divisor (Some c) r k Hr Hk Hcalc) as Hg.
  assert (Hret : exists ref, targetBuffer s (Some c) r k = Returned (Some ref)).
  { assert (Hg' : 0 <= groupNumber (Some c) r k < getNGroups (Some c))
      by (clear - Hg; lia).
    assert (HK : 0 <= 0 < K) by (clear - Hc; lia).
    assert (H9 : 0 <= 0 < getNGroups (Some 0))
      by (vm_compute; split; [discriminate | reflexivity]).
    unfold targetBuffer.
    rewrite (sameShape_getBufferGeometry data K s c _ Hkeys Hs Hc Hg').
    cbn [mbind outcome_bind]. destruct (isCenter r k).
    - rewrite (sameShape_getBufferGeometry data K s 0 0 Hkeys Hs HK H9). eauto.
    - eauto. }
  destruct Hret as [ref Href]. rewrite addColorVertex_eq, Href. cbn.
  eexists. split; [reflexivity |].
  unfold sameShape. rewrite modifyBuffer_shape. exact Hs.
Qed.

Lemma sameShape_addColorVertices (data : list (list ascii)) (row0 : list ascii) (K : Z) :
  (forall (i : nat) (row : list ascii), data !! i = Some row ->
     (length row0 <= length row)%nat) ->
  fst <$> countsByColor data = Some <$> seqZ 0 K ->
  calc (Z.of_nat (length data)) (Z.of_nat (length row0)) < 2 ^ 31 ->
  exists bgs,
    addColorVertices data (Z.of_nat (length row0)) (initialBufferGeometries data)
    = Returned bgs /\ sameShape data bgs.
Proof.
  intros Hrows Hkeys Hfits.
  unfold addColorVertices. apply (forEach_returns (sameShape data)); [| reflexivity].
  intros s rowIndex Hr Hs. apply (forEach_returns (sameShape data)); [| exact Hs].
  intros s0 colIndex Hk Hs0.
  apply elem_of_upto_inv in Hr, Hk. unfold nRows in Hr.
  destruct (js_index_Some data rowIndex Hr) as [row Hrow]. rewrite Hrow. cbn.
  pose proof (js_index_lookup _ _ _ Hrow) as Hrow'.
  pose proof (Hrows _ _ Hrow') as Hlen.
  assert (Hk' : 0 <= colIndex < Z.of_nat (length row)) by lia.
  destruct (js_index_Some row colIndex Hk') as [ch Hch]. rewrite Hch.
  pose proof (js_index_lookup _ _ _ Hch) as Hch'.
  assert (Hkey : hexDigit ch ∈ fst <$> countsByColor data).
  { apply (countsByColor_key data (Z.to_nat rowIndex) (Z.to_nat colIndex)).
    unfold cellAt. rewrite Hrow'. exact Hch'. }
  rewrite Hkeys in Hkey.
  apply list_elem_of_fmap in Hkey as (c & Hc & Hin).
  apply elem_of_seqZ in Hin. cbn [parseInt16]. rewrite Hc.
  apply (sameShape_addColorVertex data K); try assumption; try lia.
  eapply Z.le_lt_trans; [| exact Hfits]. apply calc_monotone; lia.
Qed.

(** X22: the constructor returns a manager when every row is at least as
    long as the first, the colours counted in the image are 0, 1, ..., K-1
    with none skipped (so every cell is a hexadecimal digit), and the image
    is small enough that the hash stays below 2^31. *)
Theorem constructor_returns {Color : Type} (data : list (list ascii))
    (threeColorsByIndex : list Color) (cam : Camera) (row0 : list ascii) (K : Z) :
  data !! 0%nat = Some row0 ->
  (forall (i : nat) (row : list ascii), data !! i = Some row ->
     (length row0 <= length row)%nat) ->
  fst <$> countsByColor data = Some <$> seqZ 0 K ->
  calc (Z.of_nat (length data)) (Z.of_nat (length row0)) < 2 ^ 31 ->
  exists this, constructor data threeColorsByIndex cam = Returned this.
Proof.
  intros H0 Hrows Hkeys Hcalc.
  destruct (sameShape_addColorVertices data row0 K Hrows Hkeys Hcalc) as (bgs & Hbgs & _).
  unfold constructor. rewrite (nCols_Some data row0 H0). cbn [mbind outcome_bind].
  rewrite Hbgs. eexists. reflexivity.
Qed.

Lemma constructor_returns_witness :
  exists this : @PixelManager unit,
    constructor smallGrid [] (mkCamera 50 30) = Returned this.
Proof.
  apply (constructor_returns smallGrid [] (mkCamera 50 30) ["0"; "1"]%char 2).
  - reflexivity.
  - intros [| [| i]] row H; cbn in H; try discriminate H;
      injection H as <-; cbn; lia.
  - reflexivity.
  - reflexivity.
Defined.

(** ** The palette *)

Lemma hexDigit_range (ch : ascii) (d : Z) : hexDigit ch = Some d -> 0 <= d <= 15.
Proof.
  unfold hexDigit. set (n := Z.of_nat (nat_of_ascii ch)).
  destruct ((48 <=? n) && (n <=? 57)) eqn:E1.
  { intros [= <-]. apply andb_prop in E1 as [A B].
    apply Z.leb_le in A, B. lia. }
  destruct ((97 <=? n) && (n <=? 102)) eqn:E2.
  { intros [= <-]. apply andb_prop in E2 as [A B].
    apply Z.leb_le in A, B. lia. }
  destruct ((65 <=? n) && (n <=? 70)) eqn:E3; [| discriminate].
  intros [= <-]. apply andb_prop in E3 as [A B].
  apply Z.leb_le in A, B. lia.
Qed.

(** A hexadecimal digit is no white space, sign, [x] or [#]. *)
Lemma hexDigit_plain (ch : ascii) :
  is_Some (hexDigit ch) ->
  isWhiteSpace ch = false /\ Ascii.eqb ch "-" = false /\ Ascii.eqb ch "+" = false /\
  Ascii.eqb ch "x" = false /\ Ascii.eqb ch "X" = false /\ Ascii.eqb ch "#" = false.
Proof.
  intros [d Hd].
  destruct ch as [[] [] [] [] [] [] [] []]; try discriminate Hd;
    repeat split; reflexivity.
Qed.

Lemma hexPrefix_allHex (s : string) :
  allHex s -> length (hexPrefix s) = String.length s /\
              Forall (fun d => 0 <= d <= 15) (hexPrefix s).
Proof.
  induction s as [| ch rest IH]; cbn; [split; [reflexivity | constructor] |].
  intros [[d Hd] Hrest]. rewrite Hd. destruct (IH Hrest) as [IH1 IH2].
  cbn. split; [f_equal; exact IH1 |].
  constructor; [eapply hexDigit_range; exact Hd | exact IH2].
Qed.

Lemma digitsValue_bound_acc (ds : list Z) (acc : Z) :
  Forall (fun d => 0 <= d <= 15) ds -> 0 <= acc ->
  0 <= foldl (fun acc d => acc * 16 + d) acc ds
  < (acc + 1) * 16 ^ Z.of_nat (length ds).
Proof.
  intros H. revert acc. induction H as [| d ds Hd _ IH]; intros acc Hacc.
  - cbn. lia.
  - cbn [foldl length]. specialize (IH (acc * 16 + d) ltac:(lia)).
    rewrite Nat2Z.inj_succ, Z.pow_succ_r by lia.
    assert (Hp : 0 < 16 ^ Z.of_nat (length ds)) by (apply Z.pow_pos_nonneg; lia).
    nia.
Qed.

Lemma parseIntString16_allHex (s : string) :
  allHex s -> s <> EmptyString ->
  exists v, parseIntString16 s = Some v /\
            0 <= v < 16 ^ Z.of_nat (String.length s).
Proof.
  intros Hs Hne. destruct s as [| c0 rest]; [contradiction |].
  destruct Hs as [H0 Hrest].
  destruct (hexDigit_plain c0 H0) as (Hw & Hm & Hp & _).
  unfold parseIntString16. cbn [trimStart]. rewrite Hw.
  unfold stripSign. rewrite Hm, Hp. cbn [fst snd].
  assert (Hx : strip0x (String c0 rest) = String c0 rest).
  { destruct rest as [| c1 rest']; [reflexivity |]. cbn.
    destruct Hrest as [H1 _].
    destruct (hexDigit_plain c1 H1) as (_ & _ & _ & Hx & HX & _).
    rewrite Hx, HX, andb_false_r. reflexivity. }
  rewrite Hx.
  destruct (hexPrefix_allHex (String c0 rest) (conj H0 Hrest)) as [Hlen Hall].
  pose proof (digitsValue_bound_acc _ 0 Hall ltac:(lia)) as Hb.
  rewrite Hlen in Hb.
  destruct (hexPrefix (String c0 rest)) as [| d ds] eqn:E; [discriminate Hlen |].
  exists (1 * digitsValue (d :: ds)). split; [reflexivity |].
  unfold digitsValue. lia.
Qed.

(** X23: for a palette entry made of hexadecimal digits, with or without a
    leading [#], [getHexColorByIndex] returns a number, from 0 to
    16^digits - 1 (below 2^24 for the six digits of a colour), as long as
    there are at most 13 digits, so that the value is below 2^53 and exact
    in binary64; for an index the table does not have, it raises
    [TypeError]. *)
Theorem getHexColorByIndex_hex (colorMap : list string) (colorIndex : nat) :
  (forall digits : string,
     allHex digits -> digits <> EmptyString ->
     (String.length digits <= 13)%nat ->
     colorMap !! colorIndex = Some digits \/
     colorMap !! colorIndex = Some (String "#" digits) ->
     exists v,
       getHexColorByIndex colorMap colorIndex = Returned (Some v) /\
       0 <= v < 16 ^ Z.of_nat (String.length digits)) /\
  (colorMap !! colorIndex = None ->
   getHexColorByIndex colorMap colorIndex = Thrown TypeError).
Proof.
  split.
  - intros digits Hall Hne _ Hentry.
    destruct (parseIntString16_allHex digits Hall Hne) as (v & Hv & Hb).
    exists v. split; [| exact Hb].
    unfold getHexColorByIndex. destruct Hentry as [-> | ->]; cbn.
    + destruct digits as [| c0 rest]; [contradiction |].
      destruct Hall as [H0 _].
      destruct (hexDigit_plain c0 H0) as (_ & _ & _ & _ & _ & Hh).
      unfold stripHash. rewrite Hh, Hv. reflexivity.
    + rewrite Hv. reflexivity.
  - intros H. unfold getHexColorByIndex. rewrite H. reflexivity.
Qed.

Lemma getHexColorByIndex_hex_witness :
  exists v,
    getHexColorByIndex ["#ffffff"; "#1a2B3c"]%string 1 = Returned (Some v) /\
    0 <= v < 16 ^ 6.
Proof.
  apply (proj1 (getHexColorByIndex_hex ["#ffffff"; "#1a2B3c"]%string 1)
           "1a2B3c"%string).
  - cbn. repeat split; eexists; reflexivity.
  - discriminate.
  - cbn. lia.
  - right. reflexivity.
Defined.

(** ** The geometry commit in floating point *)

(** The rounding at work: one tenth in binary32 and in binary64, a tie
    between two binary32 neighbours, and a number binary32 holds. *)
Example fround_values :
  fround 0.1 = (13421773 # 134217728)%Q /\
  binary64 0.1 = (3602879701896397 # 36028797018963968)%Q /\
  fround 16777217 = 16777216%Q /\
  fround 16777219 = 16777220%Q /\
  fround (-5) = (-5)%Q.
Proof. repeat split; vm_compute; reflexivity. Qed.

Section InsertPairs.

(** A loop that stores [f j] in slot [3 j] and [g j] in slot [3 j + 1]. *)
Variables f g : nat -> number.

Implicit Types (pos : list number).

Lemma foldl_insert_pair_length (n : nat) pos :
  length (foldl (fun pos j => <[(j * 3 + 1)%nat := g j]> (<[(j * 3 + 0)%nat := f j]> pos))
                pos (seq 0 n))
  = length pos.
Proof.
  induction n as [| n IH]; [reflexivity |].
  rewrite seq_S, foldl_app. cbn [foldl]. rewrite !length_insert. exact IH.
Qed.

Lemma foldl_insert_pair_x (n : nat) pos (j : nat) :
  (j < n)%nat -> (j * 3 + 0 < length pos)%nat ->
  foldl (fun pos j => <[(j * 3 + 1)%nat := g j]> (<[(j * 3 + 0)%nat := f j]> pos))
        pos (seq 0 n) !! (j * 3 + 0)%nat
  = Some (f j).
Proof.
  induction n as [| n IH]; intros Hj Hlen; [lia |].
  rewrite seq_S, foldl_app. cbn [foldl app Nat.add].
  rewrite list_lookup_insert_ne by lia.
  destruct (decide (j = n)) as [-> | Hne].
  - rewrite list_lookup_insert_eq; [reflexivity |].
    rewrite foldl_insert_pair_length. exact Hlen.
  - rewrite list_lookup_insert_ne by lia. apply IH; [lia | exact Hlen].
Qed.

Lemma foldl_insert_pair_y (n : nat) pos (j : nat) :
  (j < n)%nat -> (j * 3 + 1 < length pos)%nat ->
  foldl (fun pos j => <[(j * 3 + 1)%nat := g j]> (<[(j * 3 + 0)%nat := f j]> pos))
        pos (seq 0 n) !! (j * 3 + 1)%nat
  = Some (g j).
Proof.
  induction n as [| n IH]; intros Hj Hlen; [lia |].
  rewrite seq_S, foldl_app. cbn [foldl app Nat.add].
  destruct (decide (j = n)) as [-> | Hne].
  - rewrite list_lookup_insert_eq; [reflexivity |].
    rewrite length_insert, foldl_insert_pair_length. exact Hlen.
  - rewrite !list_lookup_insert_ne by lia. apply IH; [lia | exact Hlen].
Qed.

End InsertPairs.

(** *** Magnitude of the rounded values

    Rounding never carries a value past a power of two, so bounds on the
    inputs give bounds on everything the commit computes. *)

Lemma roundHalfEven_le (q : Q) (n : Z) :
  (q <= inject_Z n)%Q -> roundHalfEven q <= n.
Proof.
  intros H. unfold roundHalfEven.
  pose proof (Qfloor_resp_le _ _ H) as Hf. rewrite Qfloor_Z in Hf.
  destruct (Z.eq_dec (Qfloor q) n) as [E | E].
  - assert (Hlt : (q - inject_Z (Qfloor q) < 1 # 2)%Q).
    { rewrite E. apply Qle_lt_trans with 0%Q; [| reflexivity].
      apply (Qplus_le_l _ _ (inject_Z n)). ring_simplify. exact H. }
    rewrite Qlt_alt in Hlt. rewrite Hlt. lia.
  - destruct (_ ?= _)%Q; [destruct (Z.even _) |..]; lia.
Qed.

Lemma roundHalfEven_ge (q : Q) (n : Z) :
  (inject_Z n <= q)%Q -> n <= roundHalfEven q.
Proof.
  intros H. unfold roundHalfEven.
  pose proof (Qfloor_resp_le _ _ H) as Hf. rewrite Qfloor_Z in Hf.
  destruct (_ ?= _)%Q; [destruct (Z.even _) |..]; lia.
Qed.

Lemma two_power_Z (n : Z) : 0 <= n -> (inject_Z (2 ^ n) == 2 ^ n)%Q.
Proof. intros H. exact (Zpower_Qpower 2 n H). Qed.

Lemma Qlog2_le (q : Q) : (0 < q)%Q -> (2 ^ Qlog2 q <= q)%Q.
Proof.
  intros Hq. unfold Qlog2.
  destruct (Qle_bool _ q) eqn:E; [apply Qle_bool_iff; exact E |].
  destruct q as [n d]. cbn [Qnum Qden].
  assert (Hn : 0 < n) by (unfold Qlt in Hq; cbn in Hq; lia).
  pose proof (Z.log2_spec n Hn) as [Ha _].
  pose proof (Z.log2_spec (Zpos d) ltac:(lia)) as [_ Hb].
  pose proof (Z.log2_nonneg n) as Ha0.
  pose proof (Z.log2_nonneg (Zpos d)) as Hb0.
  replace (Z.log2 n - Z.log2 (Z.pos d) - 1)
    with (Z.log2 n - Z.succ (Z.log2 (Z.pos d))) by lia.
  rewrite Qpower_minus by discriminate.
  rewrite <- !two_power_Z by lia.
  apply Qle_shift_div_r.
  - change 0%Q with (inject_Z 0). rewrite <- Zlt_Qlt. lia.
  - unfold Qle, Qmult, inject_Z. cbn [Qnum Qden]. 
    rewrite !Z.mul_1_r, Pos.mul_1_r.
    apply Z.mul_le_mono_nonneg; lia.
Qed.

Lemma Qlog2_le_exp (q : Q) (k : Z) : (0 < q)%Q -> (q <= 2 ^ k)%Q -> Qlog2 q <= k.
Proof.
  intros Hq Hk. apply (Qpower_le_compat_l_inv 2); [| reflexivity].
  apply Qle_trans with q; [apply Qlog2_le; exact Hq | exact Hk].
Qed.

Lemma roundBinary_le (prec emin k : Z) (q : Q) :
  1 <= prec -> emin <= k -> (Qabs q <= 2 ^ k)%Q ->
  (Qabs (roundBinary prec emin q) <= 2 ^ k)%Q.
Proof.
  intros Hprec Hemin Hq. unfold roundBinary.
  destruct (Qeq_bool q 0) eqn:E0.
  { apply Qpower_0_le. discriminate. }
  apply Qeq_bool_neq in E0.
  assert (Hpos : (0 < Qabs q)%Q).
  { destruct (Qle_lt_or_eq _ _ (Qabs_nonneg q)) as [H | H]; [exact H |].
    exfalso. apply E0. symmetry in H. 
    destruct (proj1 (Qabs_Qle_condition q 0) ltac:(rewrite H; apply Qle_refl)) as [H1 H2].
    apply Qle_antisym; assumption. }
  set (e := Z.max emin (Qlog2 (Qabs q) - (prec - 1))).
  assert (He : e <= k).
  { pose proof (Qlog2_le_exp _ _ Hpos Hq). unfold e. lia. }
  assert (H2e : (0 < 2 ^ e)%Q) by (apply Qpower_0_lt; reflexivity).
  assert (HN : (inject_Z (2 ^ (k - e)) * 2 ^ e == 2 ^ k)%Q).
  { rewrite two_power_Z by lia. rewrite <- Qpower_plus by discriminate.
    replace (k - e + e) with k by lia. reflexivity. }
  apply Qabs_Qle_condition in Hq. destruct Hq as [Hlo Hhi].
  rewrite Qred_correct. apply Qabs_Qle_condition. split.
  - rewrite <- HN.
    setoid_replace (- (inject_Z (2 ^ (k - e)) * 2 ^ e))%Q
      with (inject_Z (- 2 ^ (k - e)) * 2 ^ e)%Q using relation Qeq
      by (rewrite inject_Z_opp; ring).
    apply Qmult_le_compat_r; [| apply Qlt_le_weak; exact H2e].
    rewrite <- Zle_Qle. apply roundHalfEven_ge.
    apply Qle_shift_div_l; [exact H2e |].
    rewrite inject_Z_opp.
    setoid_replace (- inject_Z (2 ^ (k - e)) * 2 ^ e)%Q
      with (- (inject_Z (2 ^ (k - e)) * 2 ^ e))%Q using relation Qeq by ring.
    rewrite HN. exact Hlo.
  - rewrite <- HN.
    apply Qmult_le_compat_r; [| apply Qlt_le_weak; exact H2e].
    rewrite <- Zle_Qle. apply roundHalfEven_le.
    apply Qle_shift_div_r; [exact H2e |].
    rewrite HN. exact Hhi.
Qed.

Lemma binary64_le (k : Z) (q : Q) :
  -1074 <= k -> (Qabs q <= 2 ^ k)%Q -> (Qabs (binary64 q) <= 2 ^ k)%Q.
Proof. intros Hk. apply roundBinary_le; lia. Qed.

Lemma fround_le (k : Z) (q : Q) :
  -149 <= k -> (Qabs q <= 2 ^ k)%Q -> (Qabs (fround q) <= 2 ^ k)%Q.
Proof. intros Hk. apply roundBinary_le; lia. Qed.

Lemma Qabs_mult_le (a b : Q) (i j k : Z) :
  k = i + j -> (Qabs a <= 2 ^ i)%Q -> (Qabs b <= 2 ^ j)%Q ->
  (Qabs (a * b) <= 2 ^ k)%Q.
Proof.
  intros -> Ha Hb. rewrite Qabs_Qmult, Qpower_plus by discriminate.
  apply Qmult_le_compat_nonneg; split; auto using Qabs_nonneg.
Qed.

Lemma Qabs_plus_le (a b : Q) (i j k : Z) :
  i < k -> j < k -> (Qabs a <= 2 ^ i)%Q -> (Qabs b <= 2 ^ j)%Q ->
  (Qabs (a + b) <= 2 ^ k)%Q.
Proof.
  intros Hi Hj Ha Hb.
  assert (H2 : (2 ^ (k - 1) + 2 ^ (k - 1) == 2 ^ k)%Q).
  { replace k with (1 + (k - 1)) at 3 by lia.
    rewrite Qpower_plus by discriminate. change (2 ^ 1)%Q with 2%Q. ring. }
  eapply Qle_trans; [apply Qabs_triangle |]. rewrite <- H2.
  apply Qplus_le_compat.
  - eapply Qle_trans; [exact Ha |]. apply Qpower_le_compat_l; [lia | discriminate].
  - eapply Qle_trans; [exact Hb |]. apply Qpower_le_compat_l; [lia | discriminate].
Qed.

Lemma Qabs_minus_le (a b : Q) (i j k : Z) :
  i < k -> j < k -> (Qabs a <= 2 ^ i)%Q -> (Qabs b <= 2 ^ j)%Q ->
  (Qabs (a - b) <= 2 ^ k)%Q.
Proof.
  intros Hi Hj Ha Hb. unfold Qminus.
  apply (Qabs_plus_le a (- b) i j k Hi Hj Ha). rewrite Qabs_opp. exact Hb.
Qed.

Lemma Qabs_inv_positive (p : positive) : (Qabs (/ inject_Z (Zpos p)) <= 2 ^ 0)%Q.
Proof. unfold Qle. cbn. lia. Qed.

Lemma clampedSize_fl_range {Color : Type} (tan : Q -> Q) (PI : Q)
    (innerHeight : positive) (cam : Camera) (g : @Mesh Color) :
  (forall x, Qabs x <= 2 ^ 34 -> Qabs (tan x) <= 2 ^ 64)%Q ->
  (Qabs PI <= 2 ^ 2)%Q ->
  (Qabs (fov cam) <= 2 ^ 32)%Q ->
  (Qabs (camera_z cam) <= 2 ^ 32)%Q ->
  (Qabs (position_z g) <= 2 ^ 32)%Q ->
  (Qabs (clampedSize_fl tan PI innerHeight cam g) <= 2 ^ 105)%Q.
Proof.
  intros Htan HPI Hfov Hzoom Hpz. unfold clampedSize_fl.
  assert (Hmax : forall m : Q, (Qabs m <= 2 ^ 105 -> Qabs (Qmin pixelSize m) <= 2 ^ 105)%Q).
  { intros m Hm. apply Qabs_Qle_condition in Hm. destruct Hm as [Hlo Hhi].
    apply Qabs_Qle_condition.
    destruct (Q.min_spec pixelSize m) as [[_ ->] | [_ ->]]; split; try assumption.
    - discriminate.
    - discriminate. }
  apply Hmax.
  apply binary64_le; [lia |].
  apply (Qabs_mult_le _ _ 7 98); [reflexivity | |].
  - apply binary64_le; [lia |]. unfold Qdiv.
    apply (Qabs_mult_le _ _ 7 0); [reflexivity | discriminate |].
    apply Qabs_inv_positive.
  - apply binary64_le; [lia |].
    apply (Qabs_mult_le _ _ 65 33); [reflexivity | |].
    + apply binary64_le; [lia |].
      apply (Qabs_mult_le _ _ 1 64); [reflexivity | discriminate |].
      apply binary64_le; [lia |]. apply Htan.
      apply binary64_le; [lia |]. unfold Qdiv.
      apply (Qabs_mult_le _ _ 34 0); [reflexivity | | discriminate].
      apply binary64_le; [lia |].
      apply (Qabs_mult_le _ _ 34 0); [reflexivity | | discriminate].
      apply binary64_le; [lia |].
      apply (Qabs_mult_le _ _ 32 2); [reflexivity | exact Hfov |].
      apply binary64_le; [lia | exact HPI].
    + apply binary64_le; [lia |].
      apply (Qabs_minus_le _ _ 32 32); [lia | lia | exact Hzoom |].
      apply binary64_le; [lia |]. unfold Qdiv.
      apply (Qabs_mult_le _ _ 32 0); [reflexivity | exact Hpz | discriminate].
Qed.

Lemma cornerPosition_fl_range (s centerX centerY : Q) (t : Z) :
  (Qabs s <= 2 ^ 105)%Q -> (Qabs centerX <= 2 ^ 32)%Q -> (Qabs centerY <= 2 ^ 32)%Q ->
  forall (xy : option number) (q : Q),
    xy = fst (cornerPosition_fl s (Some t) (Some (Num centerX)) (Some (Num centerY))) \/
    xy = snd (cornerPosition_fl s (Some t) (Some (Num centerX)) (Some (Num centerY))) ->
    toFloat32 xy = Num q -> (Qabs q <= 2 ^ 106)%Q.
Proof.
  intros Hs Hx Hy xy q Hxy Hq.
  assert (Hh : (Qabs (binary64 (0.5 * s)) <= 2 ^ 105)%Q).
  { apply binary64_le; [lia |].
    apply (Qabs_mult_le _ _ 0 105); [reflexivity | discriminate | exact Hs]. }
  assert (Hp : forall c, (Qabs c <= 2 ^ 32 ->
            Qabs (fround (binary64 (c + binary64 (0.5 * s)))) <= 2 ^ 106)%Q).
  { intros c Hc. apply fround_le; [lia |]. apply binary64_le; [lia |].
    apply (Qabs_plus_le _ _ 32 105); [lia | lia | exact Hc | exact Hh]. }
  assert (Hm : forall c, (Qabs c <= 2 ^ 32 ->
            Qabs (fround (binary64 (c - binary64 (0.5 * s)))) <= 2 ^ 106)%Q).
  { intros c Hc. apply fround_le; [lia |]. apply binary64_le; [lia |].
    apply (Qabs_minus_le _ _ 32 105); [lia | lia | exact Hc | exact Hh]. }
  destruct t as [| [[p | p |] | [p | p |] |] | p];
    cbn [cornerPosition_fl fst snd ToNumber numPlus_fl numMinus_fl] in Hxy;
    destruct Hxy as [-> | ->]; cbn [toFloat32] in Hq;
    try discriminate Hq; injection Hq as <-; auto.
Qed.

Section RoundedCommit.

Context {Color : Type}.
Variable tan : Q -> Q.
Variable PI : Q.
Variable innerHeight : positive.

Implicit Types (this : @PixelManager Color) (g : @Mesh Color).

Lemma getSize_fl_Some this (i : nat) g :
  pixelGroups this !! i = Some g ->
  getSize_fl tan PI innerHeight this i
  = Returned (clampedSize_fl tan PI innerHeight (camera this) g).
Proof.
  intros H. unfold getSize_fl, clampedSize_fl. rewrite H.
  cbn [defined mbind outcome_bind mret outcome_ret]. reflexivity.
Qed.

Lemma updateBufferGeometry_fl_step this (i : nat) :
  (pixelGroup ← defined (pixelGroups this !! i);
   size ← getSize_fl tan PI innerHeight this i;
   let pixelGroup' :=
     setPosition pixelGroup (rewritePositions_fl size pixelGroup) true in
   mret (setPixelGroups this (<[i := pixelGroup']> (pixelGroups this))))
  = updateGroupAt (committed_fl tan PI innerHeight) this i.
Proof.
  unfold updateGroupAt.
  destruct (pixelGroups this !! i) as [g |] eqn:E; [| reflexivity].
  cbn [defined mbind outcome_bind].
  rewrite (getSize_fl_Some this i g E).
  cbn [mbind outcome_bind mret outcome_ret]. unfold committed_fl.
  reflexivity.
Qed.

Lemma updateBufferGeometry_fl_eq this :
  updateBufferGeometry_fl tan PI innerHeight this
  = Returned (setPixelGroups this
                (committed_fl tan PI innerHeight (camera this) <$> pixelGroups this)).
Proof.
  rewrite <- forEach_updateGroupAt. apply forEach_ext.
  intros s i. apply updateBufferGeometry_fl_step.
Qed.

Lemma rewritePositions_fl_x (size : Q) g (j : nat) :
  (j * 3 + 0 < length (positionArray g))%nat ->
  rewritePositions_fl size g !! (j * 3 + 0)%nat
  = Some (toFloat32
            (fst (cornerPosition_fl size (vertexIndexArray g !! j)
                    (centerArray g !! (j * 3 + 0)%nat)
                    (centerArray g !! (j * 3 + 1)%nat)))).
Proof.
  intros H. unfold rewritePositions_fl.
  apply (foldl_insert_pair_x
           (fun j => toFloat32
                       (fst (cornerPosition_fl size (vertexIndexArray g !! j)
                               (centerArray g !! (j * 3 + 0)%nat)
                               (centerArray g !! (j * 3 + 1)%nat))))
           (fun j => toFloat32
                       (snd (cornerPosition_fl size (vertexIndexArray g !! j)
                               (centerArray g !! (j * 3 + 0)%nat)
                               (centerArray g !! (j * 3 + 1)%nat)))));
    [apply vertexCount_spec; lia | exact H].
Qed.

Lemma rewritePositions_fl_y (size : Q) g (j : nat) :
  (j * 3 + 1 < length (positionArray g))%nat ->
  rewritePositions_fl size g !! (j * 3 + 1)%nat
  = Some (toFloat32
            (snd (cornerPosition_fl size (vertexIndexArray g !! j)
                    (centerArray g !! (j * 3 + 0)%nat)
                    (centerArray g !! (j * 3 + 1)%nat)))).
Proof.
  intros H. unfold rewritePositions_fl.
  apply (foldl_insert_pair_y
           (fun j => toFloat32
                       (fst (cornerPosition_fl size (vertexIndexArray g !! j)
                               (centerArray g !! (j * 3 + 0)%nat)
                               (centerArray g !! (j * 3 + 1)%nat))))
           (fun j => toFloat32
                       (snd (cornerPosition_fl size (vertexIndexArray g !! j)
                               (centerArray g !! (j * 3 + 0)%nat)
                               (centerArray g !! (j * 3 + 1)%nat)))));
    [apply vertexCount_spec; lia | exact H].
Qed.

(** C4, as amended: after the geometry commit, the x and the y of a vertex
    with a finite stored centre are the binary32 roundings (the position
    buffer is a [Float32Array]) of the centre moved by half the clamped size
    of its batch, computed in binary64, with the signs of its corner tag:
    0 gives (-, +), 1 gives (+, +), 2 gives (-, -), 3 gives (+, -).  This
    holds as long as no operation overflows, which is so when the field of
    view, the depths of the camera and of the batch and the centre are at
    most 2^32 in magnitude, [Math.PI] is at most 4 and [Math.tan] at most
    2^64 on arguments up to 2^34: the size is then at most 2^105 and the
    two coordinates at most 2^106 in magnitude, far inside binary32. *)
Theorem updateBufferGeometry_fl_sign_table this (i : nat) g (j : nat) (t : Z)
    (centerX centerY : Q) :
  (forall x, Qabs x <= 2 ^ 34 -> Qabs (tan x) <= 2 ^ 64)%Q ->
  (Qabs PI <= 2 ^ 2)%Q ->
  (Qabs (fov (camera this)) <= 2 ^ 32)%Q ->
  (Qabs (camera_z (camera this)) <= 2 ^ 32)%Q ->
  pixelGroups this !! i = Some g ->
  (Qabs (position_z g) <= 2 ^ 32)%Q ->
  (3 * j + 1 < length (positionArray g))%nat ->
  vertexIndexArray g !! j = Some t ->
  centerArray g !! (3 * j)%nat = Some (Num centerX) ->
  centerArray g !! (3 * j + 1)%nat = Some (Num centerY) ->
  (Qabs centerX <= 2 ^ 32)%Q ->
  (Qabs centerY <= 2 ^ 32)%Q ->
  exists s this' g',
    getSize_fl tan PI innerHeight this i = Returned s /\
    (Qabs s <= 2 ^ 105)%Q /\
    updateBufferGeometry_fl tan PI innerHeight this = Returned this' /\
    pixelGroups this' !! i = Some g' /\
    (t = 0 ->
     positionArray g' !! (3 * j)%nat
     = Some (Num (fround (binary64 (centerX - binary64 (0.5 * s))))) /\
     positionArray g' !! (3 * j + 1)%nat
     = Some (Num (fround (binary64 (centerY + binary64 (0.5 * s)))))) /\
    (t = 1 ->
     positionArray g' !! (3 * j)%nat
     = Some (Num (fround (binary64 (centerX + binary64 (0.5 * s))))) /\
     positionArray g' !! (3 * j + 1)%nat
     = Some (Num (fround (binary64 (centerY + binary64 (0.5 * s)))))) /\
    (t = 2 ->
     positionArray g' !! (3 * j)%nat
     = Some (Num (fround (binary64 (centerX - binary64 (0.5 * s))))) /\
     positionArray g' !! (3 * j + 1)%nat
     = Some (Num (fround (binary64 (centerY - binary64 (0.5 * s)))))) /\
    (t = 3 ->
     positionArray g' !! (3 * j)%nat
     = Some (Num (fround (binary64 (centerX + binary64 (0.5 * s))))) /\
     positionArray g' !! (3 * j + 1)%nat
     = Some (Num (fround (binary64 (centerY - binary64 (0.5 * s)))))) /\
    (forall q,
       positionArray g' !! (3 * j)%nat = Some (Num q) \/
       positionArray g' !! (3 * j + 1)%nat = Some (Num q) ->
       (Qabs q <= 2 ^ 106)%Q).
Proof.
  intros Htan HPI Hfov Hzoom Hg Hpz Hlen Ht Hcx Hcy Hbx Hby.
  replace (3 * j)%nat with (j * 3 + 0)%nat in * by lia.
  replace (j * 3 + 0 + 1)%nat with (j * 3 + 1)%nat in * by lia.
  pose proof (clampedSize_fl_range tan PI innerHeight (camera this) g
                Htan HPI Hfov Hzoom Hpz) as Hs.
  set (s := clampedSize_fl tan PI innerHeight (camera this) g) in *.
  exists s, (setPixelGroups this
               (committed_fl tan PI innerHeight (camera this) <$> pixelGroups this)),
    (committed_fl tan PI innerHeight (camera this) g).
  split; [apply getSize_fl_Some; exact Hg |].
  split; [exact Hs |].
  split; [apply updateBufferGeometry_fl_eq |].
  split; [cbn [pixelGroups setPixelGroups]; rewrite list_lookup_fmap, Hg; reflexivity |].
  unfold committed_fl, setPosition. cbn [positionArray]. fold s.
  rewrite rewritePositions_fl_x, rewritePositions_fl_y by lia.
  rewrite Ht, Hcx, Hcy.
  repeat split; try (subst t; reflexivity).
  intros q [Hq | Hq]; injection Hq as Hq;
    eapply (cornerPosition_fl_range s centerX centerY t Hs Hbx Hby);
    [left; reflexivity | exact Hq | right; reflexivity | exact Hq].
Qed.

End RoundedCommit.

Lemma updateBufferGeometry_fl_sign_table_witness :
  exists s this' g',
    getSize_fl tan25 mathPI 900 (smallManager (mkCamera 50 30)) 0 = Returned s /\
    updateBufferGeometry_fl tan25 mathPI 900 (smallManager (mkCamera 50 30))
    = Returned this' /\
    pixelGroups this' !! 0%nat = Some g' /\
    positionArray g' !! 0%nat
    = Some (Num (fround (binary64 ((-100 # 20) - binary64 (0.5 * s))))).
Proof.
  destruct (updateBufferGeometry_fl_sign_table tan25 mathPI 900
              (smallManager (mkCamera 50 30)) 0%nat (smallMesh (mkCamera 50 30))
              0%nat 0 (-100 # 20) (-160 # 2))
    as (s & this' & g' & H1 & _ & H2 & H3 & H4 & _).
  - intros x _. unfold tan25. destruct (Qeq_bool _ _); vm_compute; discriminate.
  - vm_compute. discriminate.
  - vm_compute. discriminate.
  - vm_compute. discriminate.
  - vm_compute. reflexivity.
  - vm_compute. discriminate.
  - vm_compute. lia.
  - vm_compute. reflexivity.
  - vm_compute. reflexivity.
  - vm_compute. reflexivity.
  - vm_compute. discriminate.
  - vm_compute. discriminate.
  - exists s, this', g'. repeat split; try assumption.
    exact (proj1 (H4 eq_refl)).
Defined.

(** C4, as stated, fails: the position buffer holds binary32 numbers.  In
    the manager built from the 2 x 2 image, with the camera at z = 30, a
    field of view of 50 degrees and a viewport 900 pixels high, the size of
    batch 0 is [s] = 4480134390414635 / 2^50 (about 3.979); vertex 0 of the
    batch has tag 0 and centre x = -5, and after the commit its x is the
    binary32 number -7329105 / 2^20, which is not -5 - s / 2. *)
Lemma updateBufferGeometry_fl_rounds :
  exists this' g',
    getSize_fl tan25 mathPI 900 (smallManager (mkCamera 50 30)) 0
    = Returned (4480134390414635 # 1125899906842624) /\
    updateBufferGeometry_fl tan25 mathPI 900 (smallManager (mkCamera 50 30))
    = Returned this' /\
    pixelGroups this' !! 0%nat = Some g' /\
    vertexIndexArray g' !! 0%nat = Some 0 /\
    centerArray g' !! 0%nat = Some (Num (-100 # 20)) /\
    positionArray g' !! 0%nat = Some (Num (-7329105 # 1048576)) /\
    ~ ((-7329105 # 1048576)
       == (-100 # 20) - (4480134390414635 # 1125899906842624) / 2)%Q.
Proof.
  exists (setPixelGroups (smallManager (mkCamera 50 30))
            (committed_fl tan25 mathPI 900 (mkCamera 50 30)
               <$> pixelGroups (smallManager (mkCamera 50 30)))),
    (committed_fl tan25 mathPI 900 (mkCamera 50 30) (smallMesh (mkCamera 50 30))).
  split; [vm_compute; reflexivity |].
  split; [apply updateBufferGeometry_fl_eq |].
  split; [vm_compute; reflexivity |].
  split; [vm_compute; reflexivity |].
  split; [vm_compute; reflexivity |].
  split; [vm_compute; reflexivity |].
  intros H. vm_compute in H. discriminate H.
Qed.
